(** * TruckFlow server: the store, the request handlers and the chat fan-out

    A shallow embedding of [server.ts]: the six SQLite tables with the
    constraints the schema declares, each prepared statement the handlers
    run, the [auth] middleware, every Express route and the two socket.io
    events.  The properties proved below concern the messaging routes, the
    signup/login/approve routes and the middleware. *)

From Stdlib Require Import ZArith List String Ascii Bool Lia.
From Stdlib Require Import Sorting.Sorted Sorting.Permutation.
From Stdlib Require Import DecimalString DecimalPos DecimalZ.
From Stdlib Require QArith_base.
Import ListNotations.

Local Open Scope Z_scope.

(** ** Values crossing the JavaScript / SQLite boundary *)

(** What a request field destined for an INTEGER column can hold: nothing,
    null, an integral number or a string.  The driver binds both [undefined]
    and [null] as SQL NULL.  Fields destined for TEXT columns are
    [option string], [None] standing for a missing or null field. *)
Inductive value : Type :=
| Undefined
| Null
| Num (z : Z)
| Str (s : string).

Definition timestamp := Z.

(** Template-literal conversion, as in [`user_${userId}`].  A [Num] stands
    for an integral number in the range JavaScript prints in plain decimal
    (magnitude below 1e21); beyond it the language switches to exponent
    form, which is outside this embedding. *)
Definition js_string (v : value) : string :=
  match v with
  | Undefined => "undefined"
  | Null => "null"
  | Num z => NilZero.string_of_int (Z.to_int z)
  | Str s => s
  end.

(** What a REAL column holds: NULL, a number, or text that does not read as
    a number. *)
Inductive real_value : Type :=
| Real_null
| Real (q : QArith_base.Q)
| Real_text (s : string).

(** ** Rows *)

Record user : Type := mkUser {
  user_id : Z;
  email : string;
  password : string;
  role : string;
  name : string;
  company : option string;
  phone : option string;
  is_approved : Z;
  user_created_at : timestamp
}.

Record load : Type := mkLoad {
  load_id : Z;
  shipper_id : Z;
  pickup_location : string;
  delivery_location : string;
  weight : option string;
  load_truck_type : option string;
  rate : real_value;
  contact_details : option string;
  status : string;
  load_created_at : timestamp
}.

Record truck : Type := mkTruck {
  truck_id : Z;
  driver_id : Z;
  current_location : string;
  truck_type : string;
  availability_date : string;
  contact : option string;
  truck_created_at : timestamp
}.

Record application : Type := mkApplication {
  application_id : Z;
  app_load_id : Z;
  app_driver_id : Z;
  app_status : string;
  app_created_at : timestamp
}.

Record message : Type := mkMessage {
  message_id : Z;
  sender_id : Z;
  receiver_id : Z;
  content : string;
  created_at : timestamp
}.

Record review : Type := mkReview {
  review_id : Z;
  reviewer_id : Z;
  reviewee_id : Z;
  rating : value;
  comment : option string;
  review_created_at : timestamp
}.

(** ** The database

    Each table is the list of its rows in rowid order; the [seq_*] fields are
    the rows of [sqlite_sequence] that AUTOINCREMENT maintains.  The
    constraints the schema declares (NOT NULL, UNIQUE, FOREIGN KEY) are
    enforced by the statements below: the driver opens the database with
    foreign keys on, and [server.ts] sets no pragma. *)
Record store : Type := mkStore {
  users : list user;
  loads : list load;
  trucks : list truck;
  applications : list application;
  messages : list message;
  reviews : list review;
  seq_users : Z;
  seq_loads : Z;
  seq_trucks : Z;
  seq_applications : Z;
  seq_messages : Z;
  seq_reviews : Z
}.

(** The tables right after the [CREATE TABLE IF NOT EXISTS] script ran on a
    fresh file. *)
Definition empty_store : store :=
  mkStore [] [] [] [] [] [] 0 0 0 0 0 0.

Inductive sqlite_error : Type :=
| SQLITE_CONSTRAINT_NOTNULL
| SQLITE_CONSTRAINT_UNIQUE
| SQLITE_CONSTRAINT_FOREIGNKEY.

(** Result of [.run(...)]: the thrown error, or the new store together with
    [lastInsertRowid]. *)
Inductive run_result : Type :=
| Failed (e : sqlite_error)
| Ran (d : store) (lastInsertRowid : Z).

(** AUTOINCREMENT: one more than the largest rowid in the table or ever
    recorded in [sqlite_sequence]. *)
Definition largest_rowid (ids : list Z) : Z := fold_right Z.max 0 ids.

Definition next_rowid (ids : list Z) (seq : Z) : Z :=
  Z.max (largest_rowid ids) seq + 1.

Definition is_null (v : value) : bool :=
  match v with
  | Undefined | Null => true
  | _ => false
  end.

(** [ORDER BY created_at ASC]: the rows reach the sorter in rowid order and
    the sorter keeps rows with equal keys in arrival order. *)
Fixpoint sorter_insert (m : message) (l : list message) : list message :=
  match l with
  | [] => [m]
  | x :: l' =>
      if created_at m <=? created_at x then m :: x :: l'
      else x :: sorter_insert m l'
  end.

Fixpoint order_by_created_at (l : list message) : list message :=
  match l with
  | [] => []
  | m :: l' => sorter_insert m (order_by_created_at l')
  end.

(** ** Responses and socket traffic *)

Inductive error_message : Type :=
| Message (s : string)
| Sqlite_message (e : sqlite_error).

Inductive json : Type :=
| Json_error (error : error_message)
| Json_user (row : option user)
| Json_users (rows : list user)
| Json_success
| Json_id (id : Z)
| Json_loads (rows : list load)
| Json_message (row : option message)
| Json_messages (rows : list message)
| Json_stats (activeLoads completedLoads totalUsers : Z)
| Json_joined_rows.

(** How a handler ends: it answers with a status and a body, it lets a store
    error escape (no handler but signup catches), or, for a socket event, it
    just returns. *)
Inductive outcome : Type :=
| Responds (status : Z) (body : json)
| Throws (e : sqlite_error)
| Returns.

(** [io.to(room).emit("receive_message", message)] *)
Record emission : Type := mkEmission {
  room : string;
  payload : option message
}.

Definition user_room (userId : value) : string :=
  String.append "user_" (js_string userId).

(** The process state: the database and the room membership socket.io keeps
    (pairs of a connection and a room it joined). *)
Record server : Type := mkServer {
  db : store;
  rooms : list (nat * string)
}.

Definition in_room (sock : nat) (r : string) (l : list (nat * string)) : bool :=
  existsb (fun p => Nat.eqb (fst p) sock && String.eqb (snd p) r) l.

(** [socket.join(room)]: rooms of a socket form a set. *)
Definition socket_join (sock : nat) (r : string) (l : list (nat * string))
  : list (nat * string) :=
  if in_room sock r l then l else l ++ [(sock, r)].

(** The [receive_message] payloads a connection gets out of a list of
    emissions: one per emission addressed to a room it is in. *)
Definition received (sock : nat) (l : list (nat * string))
    (es : list emission) : list (option message) :=
  map payload (filter (fun e => in_room sock (room e) l) es).

Inductive request : Type :=
| POST_auth_signup (email password role name company phone : option string)
| POST_auth_login (email password : option string)
| GET_users_me (authorization : option string)
| GET_admin_users (authorization : option string)
| POST_admin_users_approve (authorization : option string) (id : string)
| GET_loads (pickup delivery type : option string)
| POST_loads (authorization : option string)
    (pickup_location delivery_location weight truck_type : option string)
    (rate : value) (contact_details : option string)
| GET_shipper_loads (authorization : option string)
| DELETE_loads (authorization : option string) (id : string)
| POST_trucks (authorization : option string)
    (current_location truck_type availability_date contact : option string)
| GET_trucks
| POST_loads_apply (authorization : option string) (id : string)
| GET_shipper_applications (authorization : option string)
| POST_messages_send (authorization : option string)
    (receiverId : value) (content : option string)
| GET_messages (authorization : option string) (otherId : string)
| GET_stats (authorization : option string)
| POST_reviews (authorization : option string)
    (reviewee_id rating : value) (comment : option string)
| GET_reviews (userId : string)
| On_join (socket : nat) (userId : value)
| On_send_message (senderId receiverId : value) (content : option string).

(** ** Sample data

    The reading of decimal numerals is the conversion used when the
    development is run on examples; two accounts as two signups leave them,
    and one connection that joined as user 2. *)
Definition decimal_integer (s : string) : option Z :=
  option_map Z.of_int (NilZero.int_of_string s).

Definition decimal_real (s : string) : option QArith_base.Q :=
  option_map QArith_base.inject_Z (decimal_integer s).

Definition alice : user :=
  mkUser 1 "alice@example.com" "secret" "shipper" "Alice" None None 0 10.

Definition bob : user :=
  mkUser 2 "bob@example.com" "hunter2" "driver" "Bob" None None 0 20.

Definition root : user :=
  mkUser 3 "root@example.com" "toor" "admin" "Root" None None 1 25.

Definition two_users : store :=
  mkStore [alice; bob] [] [] [] [] [] 2 0 0 0 0 0.

Definition hello : message := mkMessage 1 1 2 "Hello" 30.

Definition hi_back : message := mkMessage 2 2 1 "Hi back" 30.

(** One message stored at clock reading 30, and a reply stamped 29 by a
    clock that was set back in between. *)
Definition greeted : store :=
  mkStore [alice; bob] [] [] [] [hello] [] 2 0 0 0 1 0.

Definition early_reply : message := mkMessage 2 2 1 "Hi back" 29.

Definition replied_early : store :=
  mkStore [alice; bob] [] [] [] [hello; early_reply] [] 2 0 0 0 2 0.

Definition chatting : store :=
  mkStore [alice; bob] [] [] [] [hello; hi_back] [] 2 0 0 0 2 0.

Definition with_admin : store :=
  mkStore [alice; bob; root] [] [] [] [] [] 3 0 0 0 0 0.

Definition listening : server := mkServer two_users [(7%nat, "user_2"%string)].

(** A load posted by user 1, then an application to it by user 2; and the
    store left by posting that load and deleting it again. *)
Definition cargo : load :=
  mkLoad 1 1 "Lahore" "Karachi" (Some "10t"%string) (Some "Flatbed"%string)
         (Real (QArith_base.inject_Z 500)) None "available" 40.

Definition bid : application := mkApplication 1 1 2 "pending" 45.

Definition listed : store :=
  mkStore [alice; bob] [cargo] [] [] [] [] 2 1 0 0 0 0.

Definition marketplace : store :=
  mkStore [alice; bob] [cargo] [] [bid] [] [] 2 1 0 1 0 0.

Definition emptied : store :=
  mkStore [alice; bob] [] [] [] [] [] 2 1 0 0 0 0.

Section Server.

(** The conversion SQLite applies to a TEXT operand that meets an INTEGER
    column (a header, a URL parameter or a JSON string holding an id):
    [Some z] when the text reads as the integer [z], [None] when it stays
    text.  Every result below holds whatever this conversion is. *)
Variable integer_of_text : string -> option Z.

(** The conversion SQLite applies to a TEXT value stored in a REAL column
    (the rate a form sends as text): [Some q] when the text reads as the
    number [q], [None] when it stays text.  It too is left open. *)
Variable real_of_text : string -> option QArith_base.Q.

Definition as_integer (v : value) : option Z :=
  match v with
  | Num z => Some z
  | Str s => integer_of_text s
  | Undefined | Null => None
  end.

(** [col = ?] on an INTEGER column. *)
Definition column_is (col : Z) (v : value) : bool :=
  match as_integer v with
  | Some z => col =? z
  | None => false
  end.

(** What a REAL column stores for a bound value: NULL for a missing or null
    field, the number for a number or for text that reads as one, the text
    itself otherwise. *)
Definition real_affinity (v : value) : real_value :=
  match v with
  | Undefined | Null => Real_null
  | Num z => Real (QArith_base.inject_Z z)
  | Str s =>
      match real_of_text s with
      | Some q => Real q
      | None => Real_text s
      end
  end.

(** What an INTEGER column stores for a bound value. *)
Definition integer_affinity (v : value) : value :=
  match v with
  | Str s => match integer_of_text s with Some z => Num z | None => Str s end
  | _ => v
  end.

Definition user_exists (id : Z) (d : store) : bool :=
  existsb (fun u => user_id u =? id) (users d).

Definition load_exists (id : Z) (d : store) : bool :=
  existsb (fun l => load_id l =? id) (loads d).

(** ** Prepared statements *)

(** [SELECT * FROM users WHERE id = ?] with [.get] *)
Definition users_by_id (id : value) (d : store) : option user :=
  find (fun u => column_is (user_id u) id) (users d).

(** [SELECT * FROM users WHERE email = ? AND password = ?] with [.get] *)
Definition users_by_credentials (email0 password0 : option string) (d : store)
  : option user :=
  match email0, password0 with
  | Some e, Some p =>
      find (fun u => String.eqb (email u) e && String.eqb (password u) p)
           (users d)
  | _, _ => None
  end.

(** [INSERT INTO users (email, password, role, name, company, phone,
    is_approved) VALUES (?, ?, ?, ?, ?, ?, ?)] *)
Definition users_insert (now : timestamp)
    (email0 password0 role0 name0 company0 phone0 : option string)
    (is_approved0 : Z) (d : store) : run_result :=
  match email0, password0, role0, name0 with
  | Some e, Some p, Some r, Some n =>
      if existsb (fun u => String.eqb (email u) e) (users d)
      then Failed SQLITE_CONSTRAINT_UNIQUE
      else
        let id := next_rowid (map user_id (users d)) (seq_users d) in
        Ran (mkStore
               (users d ++ [mkUser id e p r n company0 phone0 is_approved0 now])
               (loads d) (trucks d) (applications d) (messages d) (reviews d)
               id (seq_loads d) (seq_trucks d) (seq_applications d)
               (seq_messages d) (seq_reviews d))
            id
  | _, _, _, _ => Failed SQLITE_CONSTRAINT_NOTNULL
  end.

(** [UPDATE users SET is_approved = 1 WHERE id = ?] *)
Definition approve_row (id : value) (u : user) : user :=
  if column_is (user_id u) id
  then mkUser (user_id u) (email u) (password u) (role u) (name u)
              (company u) (phone u) 1 (user_created_at u)
  else u.

Definition users_approve (id : value) (d : store) : store :=
  mkStore (map (approve_row id) (users d))
          (loads d) (trucks d) (applications d) (messages d) (reviews d)
          (seq_users d) (seq_loads d) (seq_trucks d) (seq_applications d)
          (seq_messages d) (seq_reviews d).

(** [INSERT INTO loads (shipper_id, pickup_location, delivery_location,
    weight, truck_type, rate, contact_details) VALUES (?, ?, ?, ?, ?, ?, ?)] *)
Definition loads_insert (now : timestamp) (shipper : Z)
    (pickup delivery weight0 type0 : option string) (rate0 : value)
    (contact0 : option string) (d : store) : run_result :=
  match pickup, delivery with
  | Some p, Some dl =>
      if user_exists shipper d then
        let id := next_rowid (map load_id (loads d)) (seq_loads d) in
        Ran (mkStore (users d)
               (loads d ++ [mkLoad id shipper p dl weight0 type0
                                   (real_affinity rate0) contact0
                                   "available" now])
               (trucks d) (applications d) (messages d) (reviews d)
               (seq_users d) id (seq_trucks d) (seq_applications d)
               (seq_messages d) (seq_reviews d))
            id
      else Failed SQLITE_CONSTRAINT_FOREIGNKEY
  | _, _ => Failed SQLITE_CONSTRAINT_NOTNULL
  end.

(** [SELECT * FROM loads WHERE id = ?] with [.get] *)
Definition loads_by_id (id : value) (d : store) : option load :=
  find (fun l => column_is (load_id l) id) (loads d).

(** [SELECT * FROM loads WHERE shipper_id = ?] *)
Definition loads_by_shipper (shipper : Z) (d : store) : list load :=
  filter (fun l => shipper_id l =? shipper) (loads d).

(** [DELETE FROM loads WHERE id = ?]: refused while an application still
    references a deleted row. *)
Definition loads_delete (id : value) (d : store) : sqlite_error + store :=
  if existsb (fun a => column_is (app_load_id a) id) (applications d)
  then inl SQLITE_CONSTRAINT_FOREIGNKEY
  else inr (mkStore (users d)
              (filter (fun l => negb (column_is (load_id l) id)) (loads d))
              (trucks d) (applications d) (messages d) (reviews d)
              (seq_users d) (seq_loads d) (seq_trucks d) (seq_applications d)
              (seq_messages d) (seq_reviews d)).

(** [INSERT INTO trucks (driver_id, current_location, truck_type,
    availability_date, contact) VALUES (?, ?, ?, ?, ?)] *)
Definition trucks_insert (now : timestamp) (driver : Z)
    (location type0 date contact0 : option string) (d : store) : run_result :=
  match location, type0, date with
  | Some l, Some t, Some a =>
      if user_exists driver d then
        let id := next_rowid (map truck_id (trucks d)) (seq_trucks d) in
        Ran (mkStore (users d) (loads d)
               (trucks d ++ [mkTruck id driver l t a contact0 now])
               (applications d) (messages d) (reviews d)
               (seq_users d) (seq_loads d) id (seq_applications d)
               (seq_messages d) (seq_reviews d))
            id
      else Failed SQLITE_CONSTRAINT_FOREIGNKEY
  | _, _, _ => Failed SQLITE_CONSTRAINT_NOTNULL
  end.

(** [INSERT INTO applications (load_id, driver_id) VALUES (?, ?)] *)
Definition applications_insert (now : timestamp) (load0 : value) (driver : Z)
    (d : store) : run_result :=
  if is_null load0 then Failed SQLITE_CONSTRAINT_NOTNULL
  else
    match as_integer load0 with
    | Some l =>
        if load_exists l d && user_exists driver d then
          let id :=
            next_rowid (map application_id (applications d))
                       (seq_applications d) in
          Ran (mkStore (users d) (loads d) (trucks d)
                 (applications d ++ [mkApplication id l driver "pending" now])
                 (messages d) (reviews d)
                 (seq_users d) (seq_loads d) (seq_trucks d) id
                 (seq_messages d) (seq_reviews d))
              id
        else Failed SQLITE_CONSTRAINT_FOREIGNKEY
    | None => Failed SQLITE_CONSTRAINT_FOREIGNKEY
    end.

(** [INSERT INTO messages (sender_id, receiver_id, content)
    VALUES (?, ?, ?)]: the NOT NULL columns first, then the two foreign keys
    into [users]. *)
Definition messages_insert (now : timestamp) (sender receiver : value)
    (content0 : option string) (d : store) : run_result :=
  if is_null sender || is_null receiver then Failed SQLITE_CONSTRAINT_NOTNULL
  else
    match content0 with
    | None => Failed SQLITE_CONSTRAINT_NOTNULL
    | Some c =>
        match as_integer sender, as_integer receiver with
        | Some s, Some r =>
            if user_exists s d && user_exists r d then
              let id :=
                next_rowid (map message_id (messages d)) (seq_messages d) in
              Ran (mkStore (users d) (loads d) (trucks d) (applications d)
                     (messages d ++ [mkMessage id s r c now]) (reviews d)
                     (seq_users d) (seq_loads d) (seq_trucks d)
                     (seq_applications d) id (seq_reviews d))
                  id
            else Failed SQLITE_CONSTRAINT_FOREIGNKEY
        | _, _ => Failed SQLITE_CONSTRAINT_FOREIGNKEY
        end
    end.

(** [SELECT * FROM messages WHERE id = ?] with [.get], on a rowid *)
Definition messages_by_id (id : Z) (d : store) : option message :=
  find (fun m => message_id m =? id) (messages d).

(** [SELECT * FROM messages WHERE (sender_id = ? AND receiver_id = ?) OR
    (sender_id = ? AND receiver_id = ?) ORDER BY created_at ASC] *)
Definition conversation_row (p1 p2 p3 p4 : value) (m : message) : bool :=
  (column_is (sender_id m) p1 && column_is (receiver_id m) p2)
  || (column_is (sender_id m) p3 && column_is (receiver_id m) p4).

Definition messages_between (p1 p2 p3 p4 : value) (d : store) : list message :=
  order_by_created_at (filter (conversation_row p1 p2 p3 p4) (messages d)).

(** [INSERT INTO reviews (reviewer_id, reviewee_id, rating, comment)
    VALUES (?, ?, ?, ?)] *)
Definition reviews_insert (now : timestamp) (reviewer : Z)
    (reviewee rating0 : value) (comment0 : option string) (d : store)
  : run_result :=
  if is_null reviewee || is_null rating0 then Failed SQLITE_CONSTRAINT_NOTNULL
  else
    match as_integer reviewee with
    | Some r =>
        if user_exists reviewer d && user_exists r d then
          let id := next_rowid (map review_id (reviews d)) (seq_reviews d) in
          Ran (mkStore (users d) (loads d) (trucks d) (applications d)
                 (messages d)
                 (reviews d ++ [mkReview id reviewer r
                                         (integer_affinity rating0)
                                         comment0 now])
                 (seq_users d) (seq_loads d) (seq_trucks d)
                 (seq_applications d) (seq_messages d) id)
              id
        else Failed SQLITE_CONSTRAINT_FOREIGNKEY
    | None => Failed SQLITE_CONSTRAINT_FOREIGNKEY
    end.

(** [SELECT COUNT( * ) FROM loads WHERE status = ?] *)
Definition loads_count (status0 : string) (d : store) : Z :=
  Z.of_nat (List.length (filter (fun l => String.eqb (status l) status0) (loads d))).

(** ** The [auth] middleware

    [next] is the route handler; it runs only on the last branch, with
    [req.user] set to the row found. *)
Definition unauthorized : outcome :=
  Responds 401 (Json_error (Message "Unauthorized")).

Definition auth (authorization : option string)
    (next : user -> store -> store * outcome) (d : store) : store * outcome :=
  match authorization with
  | None => (d, unauthorized)
  | Some userId =>
      if String.eqb userId "" then (d, unauthorized)
      else
        match users_by_id (Str userId) d with
        | None => (d, unauthorized)
        | Some req_user => next req_user d
        end
  end.

Definition forbidden (s : string) : outcome :=
  Responds 403 (Json_error (Message s)).

Definition is_role (u : user) (r : string) : bool := String.eqb (role u) r.

(** ** Routes *)

Definition auth_signup (now : timestamp)
    (email0 password0 role0 name0 company0 phone0 : option string)
    (d : store) : store * outcome :=
  let is_approved0 :=
    match role0 with
    | Some r => if String.eqb r "admin" then 1 else 0
    | None => 0
    end in
  match users_insert now email0 password0 role0 name0 company0 phone0
                     is_approved0 d with
  | Ran d' lastInsertRowid =>
      (d', Responds 200 (Json_user (users_by_id (Num lastInsertRowid) d')))
  | Failed e => (d, Responds 400 (Json_error (Sqlite_message e)))
  end.

Definition auth_login (email0 password0 : option string) (d : store)
  : store * outcome :=
  match users_by_credentials email0 password0 d with
  | None => (d, Responds 401 (Json_error (Message "Invalid credentials")))
  | Some u => (d, Responds 200 (Json_user (Some u)))
  end.

Definition users_me (req_user : user) (d : store) : store * outcome :=
  (d, Responds 200 (Json_user (Some req_user))).

Definition admin_users (req_user : user) (d : store) : store * outcome :=
  if negb (is_role req_user "admin") then (d, forbidden "Forbidden")
  else (d, Responds 200 (Json_users (users d))).

Definition admin_users_approve (id : string) (req_user : user) (d : store)
  : store * outcome :=
  if negb (is_role req_user "admin") then (d, forbidden "Forbidden")
  else (users_approve (Str id) d, Responds 200 Json_success).

Definition loads_post
    (pickup delivery weight0 type0 : option string) (rate0 : value)
    (contact0 : option string) (now : timestamp) (req_user : user) (d : store)
  : store * outcome :=
  if negb (is_role req_user "shipper")
  then (d, forbidden "Only shippers can post loads")
  else
    match loads_insert now (user_id req_user) pickup delivery weight0 type0
                       rate0 contact0 d with
    | Ran d' lastInsertRowid => (d', Responds 200 (Json_id lastInsertRowid))
    | Failed e => (d, Throws e)
    end.

Definition shipper_loads (req_user : user) (d : store) : store * outcome :=
  (d, Responds 200 (Json_loads (loads_by_shipper (user_id req_user) d))).

Definition loads_delete_route (id : string) (req_user : user) (d : store)
  : store * outcome :=
  match loads_by_id (Str id) d with
  | None => (d, forbidden "Unauthorized")
  | Some l =>
      if negb (shipper_id l =? user_id req_user)
         && negb (is_role req_user "admin")
      then (d, forbidden "Unauthorized")
      else
        match loads_delete (Str id) d with
        | inr d' => (d', Responds 200 Json_success)
        | inl e => (d, Throws e)
        end
  end.

Definition trucks_post (location type0 date contact0 : option string)
    (now : timestamp) (req_user : user) (d : store) : store * outcome :=
  if negb (is_role req_user "driver")
  then (d, forbidden "Only drivers can post trucks")
  else
    match trucks_insert now (user_id req_user) location type0 date contact0 d
    with
    | Ran d' lastInsertRowid => (d', Responds 200 (Json_id lastInsertRowid))
    | Failed e => (d, Throws e)
    end.

Definition loads_apply (id : string) (now : timestamp) (req_user : user)
    (d : store) : store * outcome :=
  if negb (is_role req_user "driver")
  then (d, forbidden "Only drivers can apply")
  else
    match applications_insert now (Str id) (user_id req_user) d with
    | Ran d' lastInsertRowid => (d', Responds 200 (Json_id lastInsertRowid))
    | Failed e => (d, Throws e)
    end.

(** [POST /api/messages/send] *)
Definition messages_send (receiverId : value) (content0 : option string)
    (now : timestamp) (req_user : user) (d : store) : store * outcome :=
  match messages_insert now (Num (user_id req_user)) receiverId content0 d with
  | Ran d' lastInsertRowid =>
      (d', Responds 200 (Json_message (messages_by_id lastInsertRowid d')))
  | Failed e => (d, Throws e)
  end.

(** [GET /api/messages/:otherId] *)
Definition messages_get (otherId : string) (req_user : user) (d : store)
  : store * outcome :=
  (d, Responds 200
        (Json_messages
           (messages_between (Num (user_id req_user)) (Str otherId)
                             (Str otherId) (Num (user_id req_user)) d))).

Definition stats (req_user : user) (d : store) : store * outcome :=
  (d, Responds 200
        (Json_stats (loads_count "available" d) (loads_count "completed" d)
                    (Z.of_nat (List.length (users d))))).

Definition reviews_post (reviewee rating0 : value) (comment0 : option string)
    (now : timestamp) (req_user : user) (d : store) : store * outcome :=
  match reviews_insert now (user_id req_user) reviewee rating0 comment0 d with
  | Ran d' _ => (d', Responds 200 Json_success)
  | Failed e => (d, Throws e)
  end.

(** The listings built with JOIN (load search, trucks, a shipper's
    applications, reviews of a user) only read; their rows are not detailed. *)
Definition joined_listing (d : store) : store * outcome :=
  (d, Responds 200 Json_joined_rows).

(** ** Socket events

    Nothing catches an error thrown in a socket listener: when the insert of
    [send_message] fails the process exits, so every connection and room is
    lost while the database file stays. *)

Definition on_join (socket : nat) (userId : value) (s : server)
  : server * outcome * list emission :=
  (mkServer (db s) (socket_join socket (user_room userId) (rooms s)),
   Returns, []).

Definition on_send_message (now : timestamp) (senderId receiverId : value)
    (content0 : option string) (s : server)
  : server * outcome * list emission :=
  match messages_insert now senderId receiverId content0 (db s) with
  | Ran d' lastInsertRowid =>
      let message0 := messages_by_id lastInsertRowid d' in
      (mkServer d' (rooms s), Returns,
       [mkEmission (user_room receiverId) message0;
        mkEmission (user_room senderId) message0])
  | Failed e => (mkServer (db s) [], Throws e, [])
  end.

(** ** The server as a transition function

    One request or socket event handled to completion at clock reading
    [now]: the next state, how the handler ended, and what was emitted.
    Express routes never touch the rooms and emit nothing. *)
Definition route (h : store -> store * outcome) (s : server)
  : server * outcome * list emission :=
  let (d', o) := h (db s) in (mkServer d' (rooms s), o, []).

Definition handle (now : timestamp) (r : request) (s : server)
  : server * outcome * list emission :=
  match r with
  | POST_auth_signup e p r n c ph => route (auth_signup now e p r n c ph) s
  | POST_auth_login e p => route (auth_login e p) s
  | GET_users_me a => route (auth a users_me) s
  | GET_admin_users a => route (auth a admin_users) s
  | POST_admin_users_approve a id => route (auth a (admin_users_approve id)) s
  | GET_loads _ _ _ => route joined_listing s
  | POST_loads a p dl w t rt c =>
      route (auth a (loads_post p dl w t rt c now)) s
  | GET_shipper_loads a => route (auth a shipper_loads) s
  | DELETE_loads a id => route (auth a (loads_delete_route id)) s
  | POST_trucks a l t dt c => route (auth a (trucks_post l t dt c now)) s
  | GET_trucks => route joined_listing s
  | POST_loads_apply a id => route (auth a (loads_apply id now)) s
  | GET_shipper_applications a => route (auth a (fun _ => joined_listing)) s
  | POST_messages_send a rc c => route (auth a (messages_send rc c now)) s
  | GET_messages a o => route (auth a (messages_get o)) s
  | GET_stats a => route (auth a stats) s
  | POST_reviews a re rt c => route (auth a (reviews_post re rt c now)) s
  | GET_reviews _ => route joined_listing s
  | On_join sock u => on_join sock u s
  | On_send_message sd rc c => on_send_message now sd rc c s
  end.

Definition initial : server := mkServer empty_store [].

(** States the server can be in: the fresh database, then any sequence of
    requests and events at any clock readings; a restart of the process keeps
    the database file and forgets the rooms. *)
Inductive reachable : server -> Prop :=
| reachable_initial : reachable initial
| reachable_handle now r s :
    reachable s -> reachable (fst (fst (handle now r s)))
| reachable_restart s :
    reachable s -> reachable (mkServer (db s) []).

(** The same with the clock in view: [run t s] when [s] is reached by
    handling requests at clock readings that never decrease, the last one
    at [t] (or none yet). *)
Inductive run : timestamp -> server -> Prop :=
| run_initial t : run t initial
| run_handle t now r s :
    run t s -> t <= now -> run now (fst (fst (handle now r s)))
| run_restart t s :
    run t s -> run t (mkServer (db s) []).

(** ** Vocabulary of the properties *)

(** An identifier resolves when it reads as the id of an existing user. *)
Definition resolves (id : value) (d : store) : Prop :=
  exists z, as_integer id = Some z /\ user_exists z d = true.

(** The constraint that rejects a send: NOT NULL when an identifier or the
    content is null or missing, the foreign key into [users] otherwise. *)
Definition send_error (sender receiver : value) (content0 : option string)
  : sqlite_error :=
  if is_null sender || is_null receiver then SQLITE_CONSTRAINT_NOTNULL
  else
    match content0 with
    | None => SQLITE_CONSTRAINT_NOTNULL
    | Some _ => SQLITE_CONSTRAINT_FOREIGNKEY
    end.

(** The row a send accepted at [now] stores. *)
Definition sent_row (now : timestamp) (sender receiver : value) (c : string)
    (d : store) (m : message) : Prop :=
  message_id m = next_rowid (map message_id (messages d)) (seq_messages d)
  /\ as_integer sender = Some (sender_id m)
  /\ as_integer receiver = Some (receiver_id m)
  /\ content m = c
  /\ created_at m = now.

(** [d'] is [d] with the one row [m] appended to [messages] and nothing else
    touched but the table's AUTOINCREMENT counter. *)
Definition appended (m : message) (d d' : store) : Prop :=
  messages d' = messages d ++ [m]
  /\ ~ In (message_id m) (map message_id (messages d))
  /\ seq_messages d' = message_id m
  /\ users d' = users d /\ loads d' = loads d /\ trucks d' = trucks d
  /\ applications d' = applications d /\ reviews d' = reviews d
  /\ seq_users d' = seq_users d /\ seq_loads d' = seq_loads d
  /\ seq_trucks d' = seq_trucks d
  /\ seq_applications d' = seq_applications d
  /\ seq_reviews d' = seq_reviews d.

(** Membership of a row in the conversation of the users [a] and [b]. *)
Definition in_conversation (a b : Z) (m : message) : bool :=
  (sender_id m =? a) && (receiver_id m =? b)
  || (sender_id m =? b) && (receiver_id m =? a).

(** Earlier creation time first, equal times by identifier. *)
Definition chronological (m1 m2 : message) : Prop :=
  created_at m1 < created_at m2
  \/ (created_at m1 = created_at m2 /\ message_id m1 < message_id m2).

Definition rowid_order (l : list message) : Prop :=
  StronglySorted (fun m1 m2 => message_id m1 < message_id m2) l.

Definition references_users (d : store) : Prop :=
  forall m, In m (messages d) ->
    user_exists (sender_id m) d = true /\ user_exists (receiver_id m) d = true.

Definition message_eq_dec (m1 m2 : message) : {m1 = m2} + {m1 <> m2}.
Proof.
  decide equality; try apply Z.eq_dec; apply string_dec.
Defined.

(** The flag signup computes from the requested role. *)
Definition signup_flag (role0 : option string) : Z :=
  match role0 with
  | Some r => if String.eqb r "admin" then 1 else 0
  | None => 0
  end.

(** Every column of a user row but the approval flag. *)
Definition same_but_flag (u u' : user) : Prop :=
  user_id u' = user_id u /\ email u' = email u /\ password u' = password u
  /\ role u' = role u /\ name u' = name u /\ company u' = company u
  /\ phone u' = phone u /\ user_created_at u' = user_created_at u.



(** What a route other than signup and approve may do to [users] and
    [messages] at clock reading [now]: nothing, or (a send) append one row
    that references existing users, takes a rowid above all others and is
    stamped [now]. *)
Definition message_step (now : timestamp) (d d' : store) : Prop :=
  users d' = users d
  /\ (messages d' = messages d
      \/ exists m, messages d' = messages d ++ [m]
           /\ user_exists (sender_id m) d = true
           /\ user_exists (receiver_id m) d = true
           /\ created_at m = now
           /\ forall x, In x (messages d) -> message_id x < message_id m).

(** The invariant of the reachable states. *)
Definition well_formed (d : store) : Prop :=
  rowid_order (messages d) /\ references_users d.

(** ** Vocabulary of the store-wide properties *)

(** Rows in increasing order of a key, and keys between 1 and a counter. *)
Definition increasing {A : Type} (key : A -> Z) (l : list A) : Prop :=
  StronglySorted (fun a b => key a < key b) l.

Definition rowids_within {A : Type} (key : A -> Z) (l : list A) (seq : Z)
  : Prop :=
  forall a, In a l -> 1 <= key a <= seq.

(** The one write a request performs on the database at clock reading
    [now]: none, or one run of one of the eight writing statements. *)
Inductive writes (now : timestamp) (d : store) : store -> Prop :=
| writes_nothing : writes now d d
| writes_user e p r n c ph fl d' id :
    users_insert now e p r n c ph fl d = Ran d' id -> writes now d d'
| writes_approval id : writes now d (users_approve id d)
| writes_load sh p dl w t rt c d' id :
    loads_insert now sh p dl w t rt c d = Ran d' id -> writes now d d'
| writes_load_delete id d' :
    loads_delete id d = inr d' -> writes now d d'
| writes_truck dr l t a c d' id :
    trucks_insert now dr l t a c d = Ran d' id -> writes now d d'
| writes_application l dr d' id :
    applications_insert now l dr d = Ran d' id -> writes now d d'
| writes_message sd rc c d' id :
    messages_insert now sd rc c d = Ran d' id -> writes now d d'
| writes_review rv re rt c d' id :
    reviews_insert now rv re rt c d = Ran d' id -> writes now d d'.

(** Accounts: ids in rowid order within the counter, emails pairwise
    distinct. *)
Definition accounts_unique (d : store) : Prop :=
  increasing user_id (users d)
  /\ rowids_within user_id (users d) (seq_users d)
  /\ NoDup (map email (users d)).

(** Loads: ids in rowid order within the counter, every status the column
    default. *)
Definition loads_consistent (d : store) : Prop :=
  increasing load_id (loads d)
  /\ rowids_within load_id (loads d) (seq_loads d)
  /\ forall l, In l (loads d) -> status l = "available"%string.

(** Every foreign key of [loads], [trucks], [applications] and [reviews]
    names an existing row. *)
Definition foreign_keys_resolve (d : store) : Prop :=
  (forall l, In l (loads d) -> user_exists (shipper_id l) d = true)
  /\ (forall t, In t (trucks d) -> user_exists (driver_id t) d = true)
  /\ (forall a, In a (applications d) ->
        load_exists (app_load_id a) d = true
        /\ user_exists (app_driver_id a) d = true)
  /\ (forall r, In r (reviews d) ->
        user_exists (reviewer_id r) d = true
        /\ user_exists (reviewee_id r) d = true).

Definition consistent (d : store) : Prop :=
  accounts_unique d /\ loads_consistent d /\ foreign_keys_resolve d.

(** Requests that only read. *)
Definition reads_only (r : request) : bool :=
  match r with
  | POST_auth_login _ _ | GET_users_me _ | GET_admin_users _
  | GET_loads _ _ _ | GET_shipper_loads _ | GET_trucks
  | GET_shipper_applications _ | GET_messages _ _ | GET_stats _
  | GET_reviews _ => true
  | _ => false
  end.

(** A handler that completed: a 200 answer or a socket handler returning. *)
Definition completed (o : outcome) : Prop :=
  o = Returns \/ exists body, o = Responds 200 body.

(** ** Proof tools *)

Create HintDb server.

Ltac table_kept := let H := fresh in intros ? H; left; exact H.
Ltac key_kept := let H := fresh in intros ? H; exact H.

Ltac split_match :=
  match goal with
  | |- context [match ?x with _ => _ end] => destruct x eqn:?
  | |- context [if ?x then _ else _] => destruct x eqn:?
  end.

Ltac run_inv H :=
  repeat match type of H with
         | context [match ?x with _ => _ end] => destruct x eqn:?
         | context [if ?x then _ else _] => destruct x eqn:?
         end;
  try discriminate H; injection H as <- <-; simpl.

(** ** Rowids *)

Lemma largest_rowid_bound ids id : In id ids -> id <= largest_rowid ids.
Proof.
  induction ids as [|x ids IH]; simpl; [tauto|].
  intros [->|H]; [lia|]. specialize (IH H). lia.
Qed.

Lemma next_rowid_above ids seq id : In id ids -> id < next_rowid ids seq.
Proof.
  intros H. apply largest_rowid_bound in H. unfold next_rowid. lia.
Qed.

Lemma next_rowid_fresh ids seq : ~ In (next_rowid ids seq) ids.
Proof.
  intros H. apply (next_rowid_above ids seq) in H. lia.
Qed.

Lemma find_app_fresh {A} (f : A -> bool) l x :
  (forall y, In y l -> f y = false) -> f x = true ->
  find f (l ++ [x]) = Some x.
Proof.
  induction l as [|y l IH]; simpl; intros Hl Hx.
  - now rewrite Hx.
  - rewrite (Hl y) by now left. apply IH; auto.
Qed.

(** ** The sorter *)

Lemma sorter_insert_perm m l : Permutation (m :: l) (sorter_insert m l).
Proof.
  induction l as [|x l IH]; simpl; [reflexivity|].
  destruct (created_at m <=? created_at x); [reflexivity|].
  rewrite perm_swap. now constructor.
Qed.

Lemma order_by_created_at_perm l : Permutation l (order_by_created_at l).
Proof.
  induction l as [|m l IH]; simpl; [constructor|].
  rewrite <- sorter_insert_perm. now constructor.
Qed.

Lemma order_by_created_at_In l m : In m (order_by_created_at l) <-> In m l.
Proof.
  split; apply Permutation_in;
    [symmetry|]; apply order_by_created_at_perm.
Qed.

Lemma sorter_insert_sorted m l :
  Forall (fun x => message_id m < message_id x) l ->
  StronglySorted chronological l ->
  StronglySorted chronological (sorter_insert m l).
Proof.
  intros Hid Hs. induction Hs as [|x l Hs IH Hx]; simpl.
  - repeat constructor.
  - inversion Hid as [|? ? Hmx Hml]; subst.
    destruct (created_at m <=? created_at x) eqn:E.
    + apply Z.leb_le in E.
      assert (Hc : chronological m x) by (unfold chronological; lia).
      constructor; [now constructor|].
      constructor; [exact Hc|].
      rewrite Forall_forall in Hx |- *. intros y Hy.
      specialize (Hx y Hy). unfold chronological in *. lia.
    + apply Z.leb_gt in E.
      constructor; [now apply IH|].
      rewrite Forall_forall in Hx |- *. intros y Hy.
      apply (Permutation_in _ (Permutation_sym (sorter_insert_perm m l))) in Hy.
      destruct Hy as [<-|Hy]; [unfold chronological; lia | now apply Hx].
Qed.

Lemma order_by_created_at_sorted l :
  rowid_order l -> StronglySorted chronological (order_by_created_at l).
Proof.
  induction 1 as [|m l Hs IH Hm]; simpl; [constructor|].
  apply sorter_insert_sorted; [|exact IH].
  rewrite Forall_forall in Hm |- *. intros x Hx.
  apply Hm. now apply order_by_created_at_In.
Qed.

Lemma rowid_order_filter f l : rowid_order l -> rowid_order (filter f l).
Proof.
  induction 1 as [|m l Hs IH Hm]; simpl; [constructor|].
  destruct (f m); [|exact IH].
  constructor; [exact IH|].
  rewrite Forall_forall in Hm |- *. intros x Hx.
  apply filter_In in Hx. now apply Hm.
Qed.

Lemma rowid_order_snoc l m :
  rowid_order l -> (forall x, In x l -> message_id x < message_id m) ->
  rowid_order (l ++ [m]).
Proof.
  induction 1 as [|x l Hs IH Hx]; simpl; intros Hm.
  - repeat constructor.
  - constructor.
    + apply IH. intros y Hy. apply Hm. now right.
    + apply Forall_app. split; [exact Hx|].
      constructor; [|constructor]. apply Hm. now left.
Qed.

(** A row no older than the rest, arriving last, leaves the sorter last. *)
Lemma order_by_created_at_snoc l m :
  (forall x, In x l -> created_at x <= created_at m) ->
  order_by_created_at (l ++ [m]) = order_by_created_at l ++ [m].
Proof.
  assert (Hins : forall x k, created_at x <= created_at m ->
            sorter_insert x (k ++ [m]) = sorter_insert x k ++ [m]).
  { intros x k Hx. induction k as [|y k IH]; simpl.
    - apply Z.leb_le in Hx. now rewrite Hx.
    - destruct (created_at x <=? created_at y); [reflexivity|].
      now rewrite IH. }
  induction l as [|x l IH]; simpl; intros Hm; [reflexivity|].
  rewrite IH by (intros y Hy; apply Hm; now right).
  apply Hins. apply Hm. now left.
Qed.

(** ** The message insert statement *)

Lemma as_integer_not_null v z : as_integer v = Some z -> is_null v = false.
Proof. destruct v; simpl; congruence. Qed.

Lemma not_resolves_cases v d :
  ~ resolves v d ->
  as_integer v = None \/ exists z, as_integer v = Some z /\ user_exists z d = false.
Proof.
  intros H. destruct (as_integer v) as [z|] eqn:E; [right|now left].
  exists z. split; [reflexivity|].
  destruct (user_exists z d) eqn:U; [|reflexivity].
  exfalso. apply H. now exists z.
Qed.

Lemma resolves_dec v d : resolves v d \/ ~ resolves v d.
Proof.
  destruct (as_integer v) as [z|] eqn:E.
  - destruct (user_exists z d) eqn:U.
    + left. now exists z.
    + right. intros [z' [Hz Hu]]. congruence.
  - right. intros [z' [Hz Hu]]. congruence.
Qed.

Lemma messages_insert_accepts now sender receiver c d zs zr :
  as_integer sender = Some zs -> user_exists zs d = true ->
  as_integer receiver = Some zr -> user_exists zr d = true ->
  let m := mkMessage (next_rowid (map message_id (messages d)) (seq_messages d))
                     zs zr c now in
  exists d',
    messages_insert now sender receiver (Some c) d = Ran d' (message_id m)
    /\ sent_row now sender receiver c d m
    /\ appended m d d'
    /\ messages_by_id (message_id m) d' = Some m.
Proof.
  intros Hs Us Hr Ur m. unfold messages_insert.
  rewrite (as_integer_not_null _ _ Hs), (as_integer_not_null _ _ Hr), Hs, Hr.
  rewrite Us, Ur. simpl. eexists. split; [reflexivity|].
  split; [now repeat split|].
  split.
  - repeat split; try reflexivity. apply next_rowid_fresh.
  - unfold messages_by_id. simpl. apply find_app_fresh.
    + intros y Hy. apply Z.eqb_neq. intros E.
      apply (next_rowid_fresh (map message_id (messages d)) (seq_messages d)).
      rewrite <- E. now apply in_map.
    + apply Z.eqb_refl.
Qed.

Lemma messages_insert_rejects now sender receiver content0 d :
  content0 = None \/ ~ resolves sender d \/ ~ resolves receiver d ->
  exists e, messages_insert now sender receiver content0 d = Failed e.
Proof.
  intros H. unfold messages_insert.
  destruct (is_null sender || is_null receiver); [eauto|].
  destruct content0 as [c|]; [|eauto].
  destruct H as [H|[H|H]]; [discriminate| |];
    apply not_resolves_cases in H; destruct H as [H|[z [H U]]]; rewrite H.
  - eauto.
  - destruct (as_integer receiver); [|eauto]. rewrite U. simpl. eauto.
  - destruct (as_integer sender); eauto.
  - destruct (as_integer sender) as [zs|]; [|eauto].
    rewrite U, andb_false_r. eauto.
Qed.

(** A run of the statement either appends one row whose two ids exist, or
    fails. *)
Lemma messages_insert_inv now sender receiver content0 d d' id :
  messages_insert now sender receiver content0 d = Ran d' id ->
  exists c zs zr,
    content0 = Some c
    /\ as_integer sender = Some zs /\ user_exists zs d = true
    /\ as_integer receiver = Some zr /\ user_exists zr d = true
    /\ id = next_rowid (map message_id (messages d)) (seq_messages d)
    /\ d' = mkStore (users d) (loads d) (trucks d) (applications d)
                    (messages d ++ [mkMessage id zs zr c now]) (reviews d)
                    (seq_users d) (seq_loads d) (seq_trucks d)
                    (seq_applications d) id (seq_reviews d).
Proof.
  unfold messages_insert.
  destruct (is_null sender || is_null receiver); [discriminate|].
  destruct content0 as [c|]; [|discriminate].
  destruct (as_integer sender) as [zs|]; [|discriminate].
  destruct (as_integer receiver) as [zr|]; [|discriminate].
  destruct (user_exists zs d) eqn:Us; [|discriminate].
  destruct (user_exists zr d) eqn:Ur; [|discriminate].
  simpl. intros [= <- <-]. exists c, zs, zr. now repeat split.
Qed.

(** ** What one step does to the tables *)

Lemma loads_insert_frame now sh p dl w t rt c d d' id :
  loads_insert now sh p dl w t rt c d = Ran d' id ->
  users d' = users d /\ messages d' = messages d.
Proof. unfold loads_insert. intros H. run_inv H. now split. Qed.

Lemma trucks_insert_frame now dr l t a c d d' id :
  trucks_insert now dr l t a c d = Ran d' id ->
  users d' = users d /\ messages d' = messages d.
Proof. unfold trucks_insert. intros H. run_inv H. now split. Qed.

Lemma applications_insert_frame now l dr d d' id :
  applications_insert now l dr d = Ran d' id ->
  users d' = users d /\ messages d' = messages d.
Proof. unfold applications_insert. intros H. run_inv H. now split. Qed.

Lemma reviews_insert_frame now rv re rt c d d' id :
  reviews_insert now rv re rt c d = Ran d' id ->
  users d' = users d /\ messages d' = messages d.
Proof. unfold reviews_insert. intros H. run_inv H. now split. Qed.

Lemma loads_delete_frame id d d' :
  loads_delete id d = inr d' ->
  users d' = users d /\ messages d' = messages d.
Proof.
  unfold loads_delete. destruct (existsb _ _); [discriminate|].
  intros [= <-]. now split.
Qed.

Lemma users_insert_inv now e p r n c ph fl d d' id :
  users_insert now e p r n c ph fl d = Ran d' id ->
  exists e' p' r' n',
    e = Some e' /\ p = Some p' /\ r = Some r' /\ n = Some n'
    /\ existsb (fun u => String.eqb (email u) e') (users d) = false
    /\ id = next_rowid (map user_id (users d)) (seq_users d)
    /\ d' = mkStore (users d ++ [mkUser id e' p' r' n' c ph fl now])
                    (loads d) (trucks d) (applications d) (messages d)
                    (reviews d) id (seq_loads d) (seq_trucks d)
                    (seq_applications d) (seq_messages d) (seq_reviews d).
Proof.
  unfold users_insert.
  destruct e as [e'|], p as [p'|], r as [r'|], n as [n'|]; try discriminate.
  destruct (existsb _ _) eqn:E; [discriminate|].
  intros [= <- <-]. exists e', p', r', n'. now repeat split.
Qed.

(** The middleware either answers 401 itself or hands an existing row to the
    route. *)
Lemma auth_cases a next d :
  auth a next d = (d, unauthorized)
  \/ exists h u, a = Some h /\ users_by_id (Str h) d = Some u
                 /\ In u (users d) /\ auth a next d = next u d.
Proof.
  unfold auth. destruct a as [h|]; [|now left].
  destruct (String.eqb h ""); [now left|].
  destruct (users_by_id (Str h) d) as [u|] eqn:E; [|now left].
  right. exists h, u. repeat split; auto.
  unfold users_by_id in E. now apply find_some in E.
Qed.

Lemma message_step_refl now d : message_step now d d.
Proof. split; [reflexivity|now left]. Qed.

Lemma message_step_frame now d d' :
  users d' = users d /\ messages d' = messages d -> message_step now d d'.
Proof. intros [Hu Hm]. split; [exact Hu|now left]. Qed.

Lemma messages_insert_step now sender receiver content0 d d' id :
  messages_insert now sender receiver content0 d = Ran d' id ->
  message_step now d d'.
Proof.
  intros H. apply messages_insert_inv in H.
  destruct H as (c & zs & zr & _ & _ & Us & _ & Ur & Hid & ->).
  split; [reflexivity|]. right. eexists. split; [reflexivity|]. simpl.
  repeat split; auto.
  intros x Hx. subst id. apply next_rowid_above. now apply in_map.
Qed.

Lemma auth_message_step now a next d :
  (forall u, message_step now d (fst (next u d))) ->
  message_step now d (fst (auth a next d)).
Proof.
  intros H. destruct (auth_cases a next d) as [->|(h & u & _ & _ & _ & ->)].
  - apply message_step_refl.
  - apply H.
Qed.

Create HintDb server.

#[local] Hint Resolve message_step_refl : server.

Lemma route_db h s : db (fst (fst (route h s))) = fst (h (db s)).
Proof. unfold route. now destruct (h (db s)). Qed.

Lemma route_rooms h s : rooms (fst (fst (route h s))) = rooms s.
Proof. unfold route. now destruct (h (db s)). Qed.

Lemma route_emits_nothing h s : snd (route h s) = [].
Proof. unfold route. now destruct (h (db s)). Qed.

(** Every request but signup and approve is a [message_step]. *)
Lemma handle_message_step now r s :
  match r with
  | POST_auth_signup _ _ _ _ _ _ | POST_admin_users_approve _ _ => True
  | _ => message_step now (db s) (db (fst (fst (handle now r s))))
  end.
Proof.
  destruct r; simpl; trivial; rewrite ?route_db;
    try (apply auth_message_step; intros u); simpl; auto with server.
  - unfold auth_login. split_match; auto with server.
  - unfold admin_users. split_match; auto with server.
  - unfold loads_post. repeat split_match; simpl; auto with server.
    eapply message_step_frame, loads_insert_frame; eauto.
  - unfold loads_delete_route. repeat split_match; simpl; auto with server.
    eapply message_step_frame, loads_delete_frame; eauto.
  - unfold trucks_post. repeat split_match; simpl; auto with server.
    eapply message_step_frame, trucks_insert_frame; eauto.
  - unfold loads_apply. repeat split_match; simpl; auto with server.
    eapply message_step_frame, applications_insert_frame; eauto.
  - unfold messages_send. split_match; simpl; auto with server.
    eapply messages_insert_step; eauto.
  - unfold reviews_post. split_match; simpl; auto with server.
    eapply message_step_frame, reviews_insert_frame; eauto.
  - unfold on_send_message. split_match; simpl; auto with server.
    eapply messages_insert_step; eauto.
Qed.

Lemma user_exists_approve id z d :
  user_exists z (users_approve id d) = user_exists z d.
Proof.
  unfold user_exists, users_approve. simpl.
  induction (users d) as [|u l IH]; simpl; [reflexivity|].
  rewrite IH. f_equal. unfold approve_row. now destruct (column_is _ _).
Qed.

Lemma user_exists_app z d d' l :
  users d' = users d ++ l ->
  user_exists z d = true -> user_exists z d' = true.
Proof.
  unfold user_exists. intros ->. rewrite existsb_app. now intros ->.
Qed.

(** What signup and approve do to the two tables. *)
Lemma signup_step now e p r n c ph d :
  let d' := fst (auth_signup now e p r n c ph d) in
  messages d' = messages d
  /\ (users d' = users d
      \/ exists e' p' r' n',
           e = Some e' /\ p = Some p' /\ r = Some r' /\ n = Some n'
           /\ users d' =
              users d ++ [mkUser (next_rowid (map user_id (users d)) (seq_users d))
                                 e' p' r' n' c ph (signup_flag r) now]).
Proof.
  unfold auth_signup. fold (signup_flag r).
  destruct (users_insert _ _ _ _ _ _ _ _ _) as [err|d1 id] eqn:E; simpl.
  - split; [reflexivity|now left].
  - apply users_insert_inv in E.
    destruct E as (e' & p' & r' & n' & -> & -> & -> & -> & _ & -> & ->).
    simpl. split; [reflexivity|]. right. exists e', p', r', n'.
    now repeat split.
Qed.

Lemma approve_step a id d :
  let d' := fst (auth a (admin_users_approve id) d) in
  d' = d \/ d' = users_approve (Str id) d.
Proof.
  destruct (auth_cases a (admin_users_approve id) d)
    as [->|(h & u & _ & _ & _ & ->)]; [now left|].
  unfold admin_users_approve. destruct (negb _); simpl; auto.
Qed.

(** ** Invariants of the reachable states *)

Lemma well_formed_step now d d' :
  message_step now d d' -> well_formed d -> well_formed d'.
Proof.
  intros [Hu Hm] [Ho Hr].
  assert (Hex : forall z, user_exists z d' = user_exists z d)
    by (intros z; unfold user_exists; now rewrite Hu).
  destruct Hm as [Hm|(m & Hm & Us & Ur & _ & Hid)].
  - split; [now rewrite Hm|]. intros x Hx. rewrite !Hex. apply Hr. congruence.
  - split; [rewrite Hm; now apply rowid_order_snoc|].
    intros x Hx. rewrite Hm in Hx. rewrite !Hex.
    apply in_app_or in Hx. destruct Hx as [Hx|[<-|[]]]; auto.
Qed.

Lemma well_formed_users d d' :
  messages d' = messages d ->
  (forall z, user_exists z d = true -> user_exists z d' = true) ->
  well_formed d -> well_formed d'.
Proof.
  intros Hm Hu [Ho Hr]. split; [now rewrite Hm|].
  intros x Hx. rewrite Hm in Hx. destruct (Hr x Hx). split; now apply Hu.
Qed.

Lemma well_formed_handle now r s :
  well_formed (db s) -> well_formed (db (fst (fst (handle now r s)))).
Proof.
  intros W. pose proof (handle_message_step now r s) as H.
  destruct r; try (eapply well_formed_step; [exact H|exact W]); clear H;
    simpl; rewrite route_db.
  - destruct (signup_step now email0 password0 role0 name0 company0 phone0
                          (db s)) as [Hm [Hu|(e' & p' & r' & n' & _ & _ & _ & _ & Hu)]].
    + apply (well_formed_users (db s)); auto. intros z.
      unfold user_exists. now rewrite Hu.
    + apply (well_formed_users (db s)); auto. intros z.
      now apply user_exists_app with (l := [mkUser (next_rowid (map user_id (users (db s))) (seq_users (db s))) e' p' r' n' company0 phone0 (signup_flag role0) now]).
  - destruct (approve_step authorization id (db s)) as [->| ->]; [exact W|].
    apply (well_formed_users (db s)); [reflexivity| |exact W].
    intros z. now rewrite user_exists_approve.
Qed.

Lemma reachable_well_formed s : reachable s -> well_formed (db s).
Proof.
  induction 1 as [|now r s _ IH|s _ IH].
  - split; [constructor|]. intros m [].
  - now apply well_formed_handle.
  - exact IH.
Qed.

Lemma run_reachable t s : run t s -> reachable s.
Proof. induction 1; now constructor. Qed.

Lemma handle_stamps now r s m :
  In m (messages (db (fst (fst (handle now r s))))) ->
  In m (messages (db s)) \/ created_at m = now.
Proof.
  pose proof (handle_message_step now r s) as H.
  assert (S : message_step now (db s) (db (fst (fst (handle now r s)))) ->
              In m (messages (db (fst (fst (handle now r s))))) ->
              In m (messages (db s)) \/ created_at m = now).
  { intros [_ [->|(x & -> & _ & _ & Hx & _)]] Hm; [now left|].
    apply in_app_or in Hm. destruct Hm as [Hm|[<-|[]]]; auto. }
  destruct r; try (exact (S H)); clear S H; simpl; rewrite route_db; intros Hm;
    left.
  - destruct (signup_step now email0 password0 role0 name0 company0 phone0
                          (db s)) as [E _]. now rewrite <- E.
  - destruct (approve_step authorization id (db s)) as [E|E];
      rewrite E in Hm; exact Hm.
Qed.

(** Along a run no stored message is stamped later than the clock. *)
Lemma run_stamps t s :
  run t s -> forall m, In m (messages (db s)) -> created_at m <= t.
Proof.
  induction 1 as [t|t now r s _ IH Ht|t s _ IH]; intros m Hm.
  - destruct Hm.
  - apply handle_stamps in Hm. destruct Hm as [Hm|Hm]; [|lia].
    specialize (IH m Hm). lia.
  - now apply IH.
Qed.

Lemma server_eta s : mkServer (db s) (rooms s) = s.
Proof. now destruct s. Qed.

(** ** Sending *)

(** The two outcomes of the insert behind both send paths. *)
Lemma messages_insert_cases now sender receiver content0 d :
  (exists c m d',
      content0 = Some c /\ resolves sender d /\ resolves receiver d
      /\ sent_row now sender receiver c d m /\ appended m d d'
      /\ messages_insert now sender receiver content0 d = Ran d' (message_id m)
      /\ messages_by_id (message_id m) d' = Some m)
  \/ ((content0 = None \/ ~ resolves sender d \/ ~ resolves receiver d)
      /\ exists e, messages_insert now sender receiver content0 d = Failed e).
Proof.
  destruct content0 as [c|].
  2:{ right. split; [now left|]. apply messages_insert_rejects. now left. }
  destruct (resolves_dec sender d) as [Hs|Hs].
  2:{ right. split; [auto|]. apply messages_insert_rejects. auto. }
  destruct (resolves_dec receiver d) as [Hr|Hr].
  2:{ right. split; [auto|]. apply messages_insert_rejects. auto. }
  left. pose proof Hs as (zs & Es & Us). pose proof Hr as (zr & Er & Ur).
  destruct (messages_insert_accepts now sender receiver c d zs zr Es Us Er Ur)
    as (d' & Hrun & Hrow & Happ & Hget).
  exists c,
    (mkMessage (next_rowid (map message_id (messages d)) (seq_messages d))
               zs zr c now), d'.
  tauto.
Qed.

Lemma messages_insert_error now sender receiver content0 d e :
  messages_insert now sender receiver content0 d = Failed e ->
  e = send_error sender receiver content0.
Proof.
  unfold messages_insert, send_error.
  destruct (is_null sender || is_null receiver); [now intros [= <-]|].
  destruct content0 as [c|]; [|now intros [= <-]].
  destruct (as_integer sender), (as_integer receiver);
    try (now intros [= <-]).
  destruct (user_exists _ d && user_exists _ d); [discriminate|].
  now intros [= <-].
Qed.

Lemma not_completed_thrown e : ~ completed (Throws e).
Proof. intros [H|[b H]]; discriminate. Qed.

(** C1 (amended).  A send fails exactly when the content is missing (null) or
    the sender or the receiver identifier does not resolve to an existing
    user: the store rejects the insert, with its NOT NULL error when a bound
    value is null and its foreign key error otherwise, the handler does not
    complete, no message is persisted and nothing is emitted.  Every other
    send, the empty text included, appends one message carrying the next
    rowid and the clock reading, and hands back the stored row: the socket
    event emits it, the REST route (for the row [req_user] the middleware
    found) answers 200 with it. *)
Theorem send_persists_or_fails now senderId receiverId content0 s req_user :
  ((exists c m d',
       content0 = Some c
       /\ resolves senderId (db s) /\ resolves receiverId (db s)
       /\ sent_row now senderId receiverId c (db s) m
       /\ appended m (db s) d'
       /\ handle now (On_send_message senderId receiverId content0) s
          = (mkServer d' (rooms s), Returns,
             [mkEmission (user_room receiverId) (Some m);
              mkEmission (user_room senderId) (Some m)]))
   \/ ((content0 = None \/ ~ resolves senderId (db s)
        \/ ~ resolves receiverId (db s))
       /\ messages_insert now senderId receiverId content0 (db s)
          = Failed (send_error senderId receiverId content0)
       /\ db (fst (fst (handle now
                          (On_send_message senderId receiverId content0) s)))
          = db s
       /\ snd (handle now (On_send_message senderId receiverId content0) s)
          = []
       /\ ~ completed
            (snd (fst (handle now
                         (On_send_message senderId receiverId content0) s)))))
  /\
  ((exists c m d',
       content0 = Some c
       /\ resolves (Num (user_id req_user)) (db s)
       /\ resolves receiverId (db s)
       /\ sent_row now (Num (user_id req_user)) receiverId c (db s) m
       /\ appended m (db s) d'
       /\ messages_send receiverId content0 now req_user (db s)
          = (d', Responds 200 (Json_message (Some m))))
   \/ ((content0 = None \/ ~ resolves (Num (user_id req_user)) (db s)
        \/ ~ resolves receiverId (db s))
       /\ messages_insert now (Num (user_id req_user)) receiverId content0
                          (db s)
          = Failed (send_error (Num (user_id req_user)) receiverId content0)
       /\ fst (messages_send receiverId content0 now req_user (db s)) = db s
       /\ ~ completed
            (snd (messages_send receiverId content0 now req_user (db s))))).
Proof.
  split.
  - destruct (messages_insert_cases now senderId receiverId content0 (db s))
      as [(c & m & d' & Hc & Hs & Hr & Hrow & Happ & Hrun & Hget)
         |[Hbad [e He]]].
    + left. exists c, m, d'. repeat (split; [assumption|]).
      unfold handle, on_send_message. now rewrite Hrun, Hget.
    + right. split; [exact Hbad|].
      pose proof (messages_insert_error _ _ _ _ _ _ He) as <-.
      split; [exact He|].
      unfold handle, on_send_message. rewrite He. simpl.
      repeat split. apply not_completed_thrown.
  - destruct (messages_insert_cases now (Num (user_id req_user)) receiverId
                                    content0 (db s))
      as [(c & m & d' & Hc & Hs & Hr & Hrow & Happ & Hrun & Hget)
         |[Hbad [e He]]].
    + left. exists c, m, d'. repeat (split; [assumption|]).
      unfold messages_send. now rewrite Hrun, Hget.
    + right. split; [exact Hbad|].
      pose proof (messages_insert_error _ _ _ _ _ _ He) as <-.
      split; [exact He|].
      unfold messages_send. rewrite He. simpl.
      split; [reflexivity|apply not_completed_thrown].
Qed.

(** ** History *)

Lemma conversation_row_spec a o b m :
  integer_of_text o = Some b ->
  conversation_row (Num a) (Str o) (Str o) (Num a) m = in_conversation a b m.
Proof.
  intros H. unfold conversation_row, in_conversation, column_is. simpl.
  now rewrite H.
Qed.

Lemma in_conversation_spec a b m :
  in_conversation a b m = true <->
  (sender_id m = a /\ receiver_id m = b)
  \/ (sender_id m = b /\ receiver_id m = a).
Proof.
  unfold in_conversation.
  rewrite orb_true_iff, !andb_true_iff, !Z.eqb_eq. tauto.
Qed.

Lemma messages_between_spec a o b d :
  integer_of_text o = Some b ->
  messages_between (Num a) (Str o) (Str o) (Num a) d
  = order_by_created_at (filter (in_conversation a b) (messages d)).
Proof.
  intros H. unfold messages_between. f_equal.
  apply filter_ext. intros m. now apply conversation_row_spec.
Qed.

Lemma filter_nothing {A} (f : A -> bool) l :
  (forall x, In x l -> f x = false) -> filter f l = [].
Proof.
  induction l as [|x l IH]; simpl; intros H; [reflexivity|].
  rewrite (H x) by now left. apply IH. intros y Hy. apply H. now right.
Qed.

(** C3.  In a reachable state, [GET /api/messages/:otherId] by user A with
    [otherId] reading as B answers 200 with exactly the messages exchanged
    between A and B in either direction (as a permutation of those rows of the
    table, so with their multiplicity), ordered by creation time and, for
    equal times, by message identifier; when the two exchanged nothing the
    answer is still the 200 response, with an empty sequence. *)
Theorem history_is_the_conversation s req_user otherId b :
  reachable s ->
  integer_of_text otherId = Some b ->
  exists h,
    messages_get otherId req_user (db s)
    = (db s, Responds 200 (Json_messages h))
    /\ Permutation h (filter (in_conversation (user_id req_user) b)
                             (messages (db s)))
    /\ (forall m,
          In m h <->
          In m (messages (db s))
          /\ ((sender_id m = user_id req_user /\ receiver_id m = b)
              \/ (sender_id m = b /\ receiver_id m = user_id req_user)))
    /\ StronglySorted chronological h
    /\ ((forall m, In m (messages (db s)) ->
           in_conversation (user_id req_user) b m = false) -> h = []).
Proof.
  intros R Hb. apply reachable_well_formed in R. destruct R as [Ho _].
  eexists. split; [reflexivity|].
  rewrite (messages_between_spec _ _ _ _ Hb).
  split; [symmetry; apply order_by_created_at_perm|].
  split; [|split].
  - intros m. rewrite order_by_created_at_In, filter_In, in_conversation_spec.
    tauto.
  - now apply order_by_created_at_sorted, rowid_order_filter.
  - intros H. now rewrite filter_nothing.
Qed.

(** C5.  Whatever the store holds, the history user A fetches with B's
    identifier and the history user B fetches with A's identifier are the same
    response, hence the same ordered sequence. *)
Theorem history_symmetric d userA userB idA idB :
  integer_of_text idA = Some (user_id userA) ->
  integer_of_text idB = Some (user_id userB) ->
  messages_get idB userA d = messages_get idA userB d.
Proof.
  intros HA HB. unfold messages_get.
  rewrite (messages_between_spec _ _ _ _ HA), (messages_between_spec _ _ _ _ HB).
  do 4 f_equal. apply filter_ext. intros m.
  unfold in_conversation. apply orb_comm.
Qed.

(** A fetch with an identifier that does not read as an integer matches no
    row. *)
Lemma history_of_unreadable_id otherId req_user d :
  integer_of_text otherId = None ->
  messages_get otherId req_user d = (d, Responds 200 (Json_messages [])).
Proof.
  intros H. unfold messages_get, messages_between.
  rewrite filter_nothing; [reflexivity|].
  intros m _. unfold conversation_row, column_is. simpl. rewrite H.
  now rewrite andb_false_r.
Qed.

(** After a send by an existing user to an existing receiver, the history of
    the two contains the stored row once, and last when no row of the
    conversation is stamped later than the send. *)
Lemma send_then_history_stamps now req_user receiverId c otherId zr s :
  user_exists (user_id req_user) (db s) = true ->
  as_integer receiverId = Some zr ->
  user_exists zr (db s) = true ->
  integer_of_text otherId = Some zr ->
  exists d' m h,
    messages_send receiverId (Some c) now req_user (db s)
    = (d', Responds 200 (Json_message (Some m)))
    /\ messages_get otherId req_user d'
       = (d', Responds 200 (Json_messages h))
    /\ count_occ message_eq_dec h m = 1%nat
    /\ ((forall x, In x (messages (db s)) ->
           in_conversation (user_id req_user) zr x = true ->
           created_at x <= now) ->
        exists earlier, h = earlier ++ [m]).
Proof.
  intros Us Hr Ur Ho.
  destruct (messages_insert_accepts now (Num (user_id req_user)) receiverId c
              (db s) (user_id req_user) zr eq_refl Us Hr Ur)
    as (d' & Hrun & _ & Happ & Hget).
  set (m := mkMessage _ _ _ _ _) in *.
  destruct Happ as (Hm & Hfresh & _).
  exists d', m. eexists.
  split; [unfold messages_send; now rewrite Hrun, Hget|].
  split; [reflexivity|].
  rewrite (messages_between_spec _ _ _ _ Ho), Hm, filter_app.
  assert (Hin : in_conversation (user_id req_user) zr m = true).
  { apply in_conversation_spec. left. now split. }
  replace (filter (in_conversation (user_id req_user) zr) [m]) with [m]
    by (simpl; now rewrite Hin).
  split.
  - rewrite <- (proj1 (Permutation_count_occ message_eq_dec _ _)
                       (order_by_created_at_perm _) m).
    rewrite count_occ_app, count_occ_cons_eq, count_occ_nil by reflexivity.
    replace (count_occ message_eq_dec _ m) with 0%nat; [reflexivity|].
    symmetry. apply count_occ_not_In. intros H. apply filter_In in H.
    apply Hfresh. apply in_map. tauto.
  - intros Hclock. eexists. apply order_by_created_at_snoc.
    intros x Hx. apply filter_In in Hx. simpl. now apply Hclock.
Qed.

(** C4 (amended).  After a send by an existing user to an existing receiver
    (any content), the fetch of their history answers a sequence that
    contains the stored message exactly once; the message is its last
    element when no message of the conversation is stamped later than the
    send, which is the case along every run whose clock readings never
    decrease. *)
Theorem send_then_history now req_user receiverId c otherId zr s :
  user_exists (user_id req_user) (db s) = true ->
  as_integer receiverId = Some zr ->
  user_exists zr (db s) = true ->
  integer_of_text otherId = Some zr ->
  exists d' m h,
    messages_send receiverId (Some c) now req_user (db s)
    = (d', Responds 200 (Json_message (Some m)))
    /\ messages_get otherId req_user d'
       = (d', Responds 200 (Json_messages h))
    /\ count_occ message_eq_dec h m = 1%nat
    /\ ((forall x, In x (messages (db s)) ->
           in_conversation (user_id req_user) zr x = true ->
           created_at x <= now) ->
        exists earlier, h = earlier ++ [m])
    /\ (forall t, run t s -> t <= now -> exists earlier, h = earlier ++ [m]).
Proof.
  intros Us Hr Ur Ho.
  destruct (send_then_history_stamps now req_user receiverId c otherId zr s
              Us Hr Ur Ho) as (d' & m & h & Hsend & Hget & Hcount & Hlast).
  exists d', m, h. repeat (split; [assumption|]).
  intros t R Ht. apply Hlast. intros x Hx _.
  pose proof (run_stamps t s R x Hx). lia.
Qed.

(** ** Referential integrity *)

(** C6.  In every reachable state each stored message names a sender and a
    receiver that exist in [users]; and a send whose receiver does not resolve
    to an existing user fails on both paths (the store's error escapes, or the
    middleware has already answered 401), leaves the database as it was and
    emits nothing (the REST route leaves the rooms too; the socket event ends
    the process, which empties them). *)
Theorem messages_reference_users s :
  reachable s ->
  references_users (db s)
  /\ forall now authorization senderId receiverId content0,
       ~ resolves receiverId (db s) ->
       (exists e,
           handle now (On_send_message senderId receiverId content0) s
           = (mkServer (db s) [], Throws e, []))
       /\ (exists o,
              handle now (POST_messages_send authorization receiverId content0) s
              = (s, o, [])
              /\ (o = unauthorized \/ exists e, o = Throws e)).
Proof.
  intros R. split; [apply (reachable_well_formed s R)|].
  intros now a senderId receiverId content0 Hr. split.
  - destruct (messages_insert_rejects now senderId receiverId content0 (db s))
      as [e He]; [auto|].
    exists e. unfold handle, on_send_message. now rewrite He.
  - unfold handle, route.
    destruct (auth_cases a (messages_send receiverId content0 now) (db s))
      as [->|(h & u & _ & _ & _ & ->)].
    + exists unauthorized. rewrite server_eta. auto.
    + destruct (messages_insert_rejects now (Num (user_id u)) receiverId
                                        content0 (db s)) as [e He]; [auto|].
      unfold messages_send. rewrite He, server_eta. eauto.
Qed.

(** ** Accounts *)

Lemma signup_flag_admin r :
  (r = Some "admin"%string -> signup_flag r = 1)
  /\ (r <> Some "admin"%string -> signup_flag r = 0).
Proof.
  unfold signup_flag. destruct r as [r|]; [|split; congruence].
  destruct (String.eqb_spec r "admin"); split; congruence.
Qed.

Lemma users_insert_get now e p r n c ph fl d d' id :
  users_insert now e p r n c ph fl d = Ran d' id ->
  exists e' p' r' n',
    e = Some e' /\ p = Some p' /\ r = Some r' /\ n = Some n'
    /\ users d' = users d ++ [mkUser id e' p' r' n' c ph fl now]
    /\ users_by_id (Num id) d' = Some (mkUser id e' p' r' n' c ph fl now).
Proof.
  intros H. apply users_insert_inv in H.
  destruct H as (e' & p' & r' & n' & -> & -> & -> & -> & _ & Hid & ->).
  exists e', p', r', n'. repeat split.
  unfold users_by_id, column_is. simpl. apply find_app_fresh.
  - intros u Hu. apply Z.eqb_neq. intros E. subst id.
    apply (next_rowid_fresh (map user_id (users d)) (seq_users d)).
    rewrite <- E. now apply in_map.
  - apply Z.eqb_refl.
Qed.

(** C7.  A step leaves the [users] table as it is, unless it is a signup,
    which appends the one row it answers with, approved exactly when the
    requested role is admin, or an approve, which rewrites rows through
    [UPDATE users SET is_approved = 1]: no other request writes an approval
    flag. *)
Theorem approval_flag_writers now r s :
  let d := db s in
  let d' := db (fst (fst (handle now r s))) in
  users d' = users d
  \/ (exists e p ro n c ph u,
         r = POST_auth_signup e p ro n c ph
         /\ users d' = users d ++ [u]
         /\ (ro = Some "admin"%string -> is_approved u = 1)
         /\ (ro <> Some "admin"%string -> is_approved u = 0)
         /\ snd (fst (handle now r s)) = Responds 200 (Json_user (Some u)))
  \/ (exists a id,
         r = POST_admin_users_approve a id
         /\ users d' = map (approve_row (Str id)) (users d)).
Proof.
  intros d d'. subst d d'.
  pose proof (handle_message_step now r s) as H.
  destruct r; try (left; exact (proj1 H)); clear H.
  - unfold handle, route, auth_signup. fold (signup_flag role0).
    destruct (users_insert _ _ _ _ _ _ _ _ _) as [err|d1 id] eqn:E; simpl;
      [now left|].
    right. left.
    apply users_insert_get in E.
    destruct E as (e' & p' & r' & n' & -> & -> & -> & -> & Hu & Hget).
    do 6 eexists. eexists. split; [reflexivity|]. rewrite Hget, Hu.
    split; [reflexivity|]. simpl.
    destruct (signup_flag_admin (Some r')). auto.
  - simpl. rewrite route_db.
    destruct (approve_step authorization id (db s)) as [->| ->]; [now left|].
    right. right. now exists authorization, id.
Qed.

(** ** The middleware *)

(** C8.  When the caller-identifier header is missing, empty or names no
    existing user, the middleware answers 401 whatever the route handler is
    (the handler is not run), and the two messaging routes answer 401, leave
    the state as it was and emit nothing. *)
Theorem unauthenticated_is_rejected authorization s :
  authorization = None
  \/ authorization = Some ""%string
  \/ (exists h, authorization = Some h /\ users_by_id (Str h) (db s) = None) ->
  (forall next, auth authorization next (db s) = (db s, unauthorized))
  /\ (forall now receiverId content0,
         handle now (POST_messages_send authorization receiverId content0) s
         = (s, Responds 401 (Json_error (Message "Unauthorized")), []))
  /\ (forall now otherId,
         handle now (GET_messages authorization otherId) s
         = (s, Responds 401 (Json_error (Message "Unauthorized")), [])).
Proof.
  intros H.
  assert (A : forall next, auth authorization next (db s) = (db s, unauthorized)).
  { intros next. unfold auth.
    destruct H as [->|[->|(h & -> & Hh)]]; try reflexivity.
    rewrite Hh. now destruct (String.eqb h ""). }
  split; [exact A|].
  split; intros; unfold handle, route; now rewrite A, server_eta.
Qed.

(** ** Login and signup answers *)

(** C9.  Login and signup answer with the whole user row: a 200 answer of
    either carries a row of the [users] table whose [password] column is the
    password that was submitted, unchanged; login with the credentials of a
    stored row, and signup with the four required fields and an unused email,
    do answer 200. *)
Theorem answers_carry_password :
  (forall e p d d' b,
      auth_login e p d = (d', Responds 200 b) ->
      exists u, b = Json_user (Some u) /\ In u (users d)
                /\ e = Some (email u) /\ p = Some (password u))
  /\ (forall d u,
         In u (users d) ->
         exists u', auth_login (Some (email u)) (Some (password u)) d
                    = (d, Responds 200 (Json_user (Some u')))
                    /\ password u' = password u)
  /\ (forall now e p r n c ph d d' b,
         auth_signup now e p r n c ph d = (d', Responds 200 b) ->
         exists u, b = Json_user (Some u) /\ In u (users d')
                   /\ p = Some (password u))
  /\ (forall now e p r n c ph d,
         existsb (fun u => String.eqb (email u) e) (users d) = false ->
         exists u d',
           auth_signup now (Some e) (Some p) (Some r) (Some n) c ph d
           = (d', Responds 200 (Json_user (Some u)))
           /\ In u (users d') /\ password u = p).
Proof.
  repeat split.
  - intros e p d d' b. unfold auth_login, users_by_credentials.
    destruct e as [e|], p as [p|]; try discriminate.
    destruct (find _ _) as [u|] eqn:F; [|discriminate].
    intros [= <- <-]. apply find_some in F. destruct F as [Hin Hm].
    apply andb_true_iff in Hm. destruct Hm as [He Hp].
    apply String.eqb_eq in He, Hp. subst. now exists u.
  - intros d u Hin. unfold auth_login, users_by_credentials.
    destruct (find _ _) as [u'|] eqn:F.
    + exists u'. split; [reflexivity|]. apply find_some in F.
      destruct F as [_ Hm]. apply andb_true_iff in Hm.
      now apply String.eqb_eq.
    + exfalso. apply (find_none _ _ F) in Hin.
      now rewrite !String.eqb_refl in Hin.
  - intros now e p r n c ph d d' b. unfold auth_signup.
    destruct (users_insert _ _ _ _ _ _ _ _ _) as [err|d1 id] eqn:E;
      [discriminate|].
    apply users_insert_get in E.
    destruct E as (e' & p' & r' & n' & -> & -> & -> & -> & Hu & Hget).
    rewrite Hget. intros [= <- <-]. eexists. split; [reflexivity|].
    rewrite Hu. split; [|reflexivity]. apply in_or_app. right. now left.
  - intros now e p r n c ph d Hfree. unfold auth_signup, users_insert.
    rewrite Hfree.
    set (id := next_rowid _ _). set (fl := if String.eqb r "admin" then _ else _).
    set (d' := mkStore _ _ _ _ _ _ _ _ _ _ _ _).
    assert (E : users_insert now (Some e) (Some p) (Some r) (Some n) c ph fl d
                = Ran d' id)
      by (unfold users_insert; now rewrite Hfree).
    apply users_insert_get in E.
    destruct E as (e' & p' & r' & n' & [= <-] & [= <-] & [= <-] & [= <-] & Hu & Hget).
    rewrite Hget. do 2 eexists. split; [reflexivity|].
    rewrite Hu. split; [|reflexivity]. apply in_or_app. right. now left.
Qed.

(** ** Approval *)

Lemma approve_row_id id u : user_id (approve_row id u) = user_id u.
Proof. unfold approve_row. now destruct (column_is _ _). Qed.



Lemma approve_row_approved id u :
  is_approved u = 1 -> approve_row id u = u.
Proof.
  unfold approve_row. destruct (column_is _ _); [|reflexivity].
  destruct u; simpl. now intros ->.
Qed.



Lemma users_approve_noop id d :
  (forall u, In u (users d) -> column_is (user_id u) id = true ->
             is_approved u = 1) ->
  users_approve id d = d.
Proof.
  intros H. unfold users_approve.
  replace (map (approve_row id) (users d)) with (users d); [now destruct d|].
  symmetry. rewrite <- (map_id (users d)) at 2.
  apply map_ext_in. intros u Hu.
  destruct (column_is (user_id u) id) eqn:E.
  - apply approve_row_approved. now apply H.
  - unfold approve_row. now rewrite E.
Qed.






(** ** The fan-out *)

(** The middleware hands a caller it finds to the route. *)
Lemma auth_passes h req_user next d :
  h <> ""%string ->
  users_by_id (Str h) d = Some req_user ->
  auth (Some h) next d = next req_user d.
Proof.
  intros Hh Hu. unfold auth. rewrite Hu.
  destruct (String.eqb_spec h ""); [contradiction|reflexivity].
Qed.

(** No Express route emits. *)
Lemma express_routes_emit_nothing now r s :
  match r with
  | On_send_message _ _ _ => True
  | _ => snd (handle now r s) = []
  end.
Proof. destruct r; simpl; trivial; apply route_emits_nothing. Qed.

(** X17.  An accepted [send_message] event emits the stored row to the
    receiver's room, then to the sender's room; a connection receives one copy
    for each of the two rooms it is in. *)
Lemma socket_send_fans_out now senderId receiverId content0 s s' es sock :
  handle now (On_send_message senderId receiverId content0) s
  = (s', Returns, es) ->
  exists m,
    In m (messages (db s'))
    /\ es = [mkEmission (user_room receiverId) (Some m);
             mkEmission (user_room senderId) (Some m)]
    /\ received sock (rooms s) es
       = (if in_room sock (user_room receiverId) (rooms s)
          then [Some m] else [])
         ++ (if in_room sock (user_room senderId) (rooms s)
             then [Some m] else []).
Proof.
  unfold handle, on_send_message.
  destruct (messages_insert_cases now senderId receiverId content0 (db s))
    as [(c & m & d' & _ & _ & _ & _ & Happ & -> & ->)|[_ [e ->]]];
    [|discriminate].
  intros [= <- <-]. exists m. simpl.
  split; [|split; [reflexivity|]].
  - destruct Happ as [-> _]. apply in_or_app. right. now left.
  - unfold received. simpl.
    now destruct (in_room sock (user_room receiverId) (rooms s)),
                 (in_room sock (user_room senderId) (rooms s)).
Qed.

(** ** One write per request *)

Lemma loads_insert_inv now sh p dl w t rt c d d' id :
  loads_insert now sh p dl w t rt c d = Ran d' id ->
  exists p' dl',
    p = Some p' /\ dl = Some dl' /\ user_exists sh d = true
    /\ id = next_rowid (map load_id (loads d)) (seq_loads d)
    /\ d' = mkStore (users d)
              (loads d ++ [mkLoad id sh p' dl' w t (real_affinity rt) c
                                  "available" now])
              (trucks d) (applications d) (messages d) (reviews d)
              (seq_users d) id (seq_trucks d) (seq_applications d)
              (seq_messages d) (seq_reviews d).
Proof.
  unfold loads_insert. destruct p as [p'|], dl as [dl'|]; try discriminate.
  destruct (user_exists sh d) eqn:U; [|discriminate].
  intros [= <- <-]. exists p', dl'. now repeat split.
Qed.

Lemma trucks_insert_inv now dr l t a c d d' id :
  trucks_insert now dr l t a c d = Ran d' id ->
  exists l' t' a',
    l = Some l' /\ t = Some t' /\ a = Some a' /\ user_exists dr d = true
    /\ id = next_rowid (map truck_id (trucks d)) (seq_trucks d)
    /\ d' = mkStore (users d) (loads d)
              (trucks d ++ [mkTruck id dr l' t' a' c now])
              (applications d) (messages d) (reviews d)
              (seq_users d) (seq_loads d) id (seq_applications d)
              (seq_messages d) (seq_reviews d).
Proof.
  unfold trucks_insert.
  destruct l as [l'|], t as [t'|], a as [a'|]; try discriminate.
  destruct (user_exists dr d) eqn:U; [|discriminate].
  intros [= <- <-]. exists l', t', a'. now repeat split.
Qed.

Lemma applications_insert_inv now l dr d d' id :
  applications_insert now l dr d = Ran d' id ->
  exists z,
    as_integer l = Some z /\ load_exists z d = true
    /\ user_exists dr d = true
    /\ id = next_rowid (map application_id (applications d))
                       (seq_applications d)
    /\ d' = mkStore (users d) (loads d) (trucks d)
              (applications d ++ [mkApplication id z dr "pending" now])
              (messages d) (reviews d)
              (seq_users d) (seq_loads d) (seq_trucks d) id
              (seq_messages d) (seq_reviews d).
Proof.
  unfold applications_insert. destruct (is_null l); [discriminate|].
  destruct (as_integer l) as [z|]; [|discriminate].
  destruct (load_exists z d) eqn:L; [|discriminate].
  destruct (user_exists dr d) eqn:U; [|discriminate]. simpl.
  intros [= <- <-]. exists z. now repeat split.
Qed.

Lemma reviews_insert_inv now rv re rt c d d' id :
  reviews_insert now rv re rt c d = Ran d' id ->
  exists z,
    as_integer re = Some z /\ is_null rt = false
    /\ user_exists rv d = true /\ user_exists z d = true
    /\ id = next_rowid (map review_id (reviews d)) (seq_reviews d)
    /\ d' = mkStore (users d) (loads d) (trucks d) (applications d)
              (messages d)
              (reviews d ++ [mkReview id rv z (integer_affinity rt) c now])
              (seq_users d) (seq_loads d) (seq_trucks d)
              (seq_applications d) (seq_messages d) id.
Proof.
  unfold reviews_insert. destruct (is_null re); [discriminate|].
  destruct (is_null rt); [discriminate|].
  destruct (as_integer re) as [z|]; [|discriminate].
  destruct (user_exists rv d) eqn:U; [|discriminate].
  destruct (user_exists z d) eqn:U'; [|discriminate]. simpl.
  intros [= <- <-]. exists z. now repeat split.
Qed.

Lemma loads_delete_inv id d d' :
  loads_delete id d = inr d' ->
  (forall a, In a (applications d) -> column_is (app_load_id a) id = false)
  /\ d' = mkStore (users d)
            (filter (fun l => negb (column_is (load_id l) id)) (loads d))
            (trucks d) (applications d) (messages d) (reviews d)
            (seq_users d) (seq_loads d) (seq_trucks d) (seq_applications d)
            (seq_messages d) (seq_reviews d).
Proof.
  unfold loads_delete. destruct (existsb _ _) eqn:E; [discriminate|].
  intros [= <-]. split; [|reflexivity].
  intros a Ha. destruct (column_is (app_load_id a) id) eqn:C; [|reflexivity].
  assert (X : existsb (fun a => column_is (app_load_id a) id)
                      (applications d) = true)
    by (apply existsb_exists; now exists a).
  congruence.
Qed.

Lemma auth_writes now a next d :
  (forall u, writes now d (fst (next u d))) ->
  writes now d (fst (auth a next d)).
Proof.
  intros H. destruct (auth_cases a next d) as [->|(h & u & _ & _ & _ & ->)].
  - constructor.
  - apply H.
Qed.

(** Whatever the request, the database after it is the database before it
    or the result of one writing statement. *)
Lemma handle_writes now r s :
  writes now (db s) (db (fst (fst (handle now r s)))).
Proof.
  destruct r; simpl; rewrite ?route_db;
    try (apply auth_writes; intros u); simpl; try (now constructor).
  - unfold auth_signup. split_match; simpl; [constructor|].
    eapply writes_user; eauto.
  - unfold auth_login. split_match; constructor.
  - unfold admin_users. split_match; constructor.
  - unfold admin_users_approve. split_match; simpl; constructor.
  - unfold loads_post. repeat split_match; simpl; try constructor.
    eapply writes_load; eauto.
  - unfold loads_delete_route. repeat split_match; simpl; try constructor.
    eapply writes_load_delete; eauto.
  - unfold trucks_post. repeat split_match; simpl; try constructor.
    eapply writes_truck; eauto.
  - unfold loads_apply. repeat split_match; simpl; try constructor.
    eapply writes_application; eauto.
  - unfold messages_send. split_match; simpl; try constructor.
    eapply writes_message; eauto.
  - unfold reviews_post. split_match; simpl; try constructor.
    eapply writes_review; eauto.
  - unfold on_send_message. split_match; simpl; try constructor.
    eapply writes_message; eauto.
Qed.

(** ** Store-wide invariants *)

Lemma increasing_snoc {A} (key : A -> Z) l a :
  increasing key l -> (forall x, In x l -> key x < key a) ->
  increasing key (l ++ [a]).
Proof.
  induction 1 as [|x l Hs IH Hx]; simpl; intros Ha.
  - repeat constructor.
  - constructor.
    + apply IH. intros y Hy. apply Ha. now right.
    + apply Forall_app. split; [exact Hx|].
      constructor; [|constructor]. apply Ha. now left.
Qed.

Lemma increasing_filter {A} (key : A -> Z) f l :
  increasing key l -> increasing key (filter f l).
Proof.
  induction 1 as [|x l Hs IH Hx]; simpl; [constructor|].
  destruct (f x); [|exact IH].
  constructor; [exact IH|].
  rewrite Forall_forall in Hx |- *. intros y Hy.
  apply filter_In in Hy. now apply Hx.
Qed.

Lemma increasing_map {A} (key : A -> Z) f l :
  (forall x, key (f x) = key x) ->
  increasing key l -> increasing key (map f l).
Proof.
  intros Hf. induction 1 as [|x l Hs IH Hx]; simpl; constructor; [exact IH|].
  rewrite Forall_forall in Hx |- *. intros y Hy.
  apply in_map_iff in Hy. destruct Hy as (z & <- & Hz).
  rewrite !Hf. now apply Hx.
Qed.

(** In a table in rowid order, the first row with a given key is the only
    one. *)
Lemma increasing_find {A} (key : A -> Z) l a :
  increasing key l -> In a l ->
  find (fun x => key x =? key a) l = Some a.
Proof.
  induction 1 as [|x l Hs IH Hx]; simpl; [tauto|].
  intros [->|Ha]; [now rewrite Z.eqb_refl|].
  rewrite Forall_forall in Hx. specialize (Hx a Ha).
  destruct (Z.eqb_spec (key x) (key a)); [lia|]. now apply IH.
Qed.

Lemma next_rowid_positive ids seq :
  1 <= next_rowid ids seq /\ seq < next_rowid ids seq.
Proof.
  unfold next_rowid.
  assert (0 <= largest_rowid ids)
    by (induction ids; simpl; lia).
  lia.
Qed.

Lemma user_exists_In z d :
  user_exists z d = true <-> exists u, In u (users d) /\ user_id u = z.
Proof.
  unfold user_exists. rewrite existsb_exists.
  split; intros (u & Hu & E); exists u; split; auto;
    now apply Z.eqb_eq.
Qed.

Lemma load_exists_In z d :
  load_exists z d = true <-> exists l, In l (loads d) /\ load_id l = z.
Proof.
  unfold load_exists. rewrite existsb_exists.
  split; intros (l & Hl & E); exists l; split; auto;
    now apply Z.eqb_eq.
Qed.

Lemma map_approve_row_ids id l :
  map user_id (map (approve_row id) l) = map user_id l.
Proof.
  rewrite map_map. apply map_ext. intros u. apply approve_row_id.
Qed.

Lemma approve_row_email id u : email (approve_row id u) = email u.
Proof. unfold approve_row. now destruct (column_is _ _). Qed.

Lemma writes_accounts now d d' :
  writes now d d' -> accounts_unique d -> accounts_unique d'.
Proof.
  intros W Hall. pose proof Hall as (Hi & Hw & He). destruct W as
    [ | e p r n c ph fl d' id H | id | sh p dl w t rt c d' id H
    | id d' H | dr l t a c d' id H | l dr d' id H | sd rc c d' id H
    | rv re rt c d' id H ].
  - exact Hall.
  - apply users_insert_inv in H.
    destruct H as (e' & p' & r' & n' & -> & -> & -> & -> & Hfree & Hid & ->).
    unfold accounts_unique. simpl.
    pose proof (next_rowid_positive (map user_id (users d)) (seq_users d)).
    split; [|split].
    + apply increasing_snoc; [exact Hi|]. intros x Hx. simpl. subst id.
      apply next_rowid_above. now apply in_map.
    + intros u Hu. apply in_app_or in Hu.
      destruct Hu as [Hu|[<-|[]]]; simpl; [|lia].
      specialize (Hw u Hu). lia.
    + rewrite map_app. simpl.
      apply (Permutation_NoDup (Permutation_cons_append _ _)).
      constructor; [|exact He].
      intros Hin. apply in_map_iff in Hin. destruct Hin as (u & <- & Hu).
      assert (X : existsb (fun u0 => String.eqb (email u0) (email u))
                          (users d) = true)
        by (apply existsb_exists; exists u; split;
            [exact Hu|apply String.eqb_refl]).
      congruence.
  - unfold accounts_unique, users_approve. simpl.
    split; [|split].
    + apply increasing_map; [apply approve_row_id|exact Hi].
    + intros u Hu. apply in_map_iff in Hu. destruct Hu as (x & <- & Hx).
      rewrite approve_row_id. now apply Hw.
    + rewrite map_map.
      rewrite (map_ext _ email (approve_row_email id)). exact He.
  - apply loads_insert_inv in H.
    destruct H as (? & ? & _ & _ & _ & _ & ->). exact Hall.
  - apply loads_delete_inv in H. destruct H as (_ & ->). exact Hall.
  - apply trucks_insert_inv in H.
    destruct H as (? & ? & ? & _ & _ & _ & _ & _ & ->). exact Hall.
  - apply applications_insert_inv in H.
    destruct H as (? & _ & _ & _ & _ & ->). exact Hall.
  - apply messages_insert_inv in H.
    destruct H as (? & ? & ? & _ & _ & _ & _ & _ & _ & ->). exact Hall.
  - apply reviews_insert_inv in H.
    destruct H as (? & _ & _ & _ & _ & _ & ->). exact Hall.
Qed.

Lemma writes_loads now d d' :
  writes now d d' -> loads_consistent d -> loads_consistent d'.
Proof.
  intros W Hall. pose proof Hall as (Hi & Hw & Ha). destruct W as
    [ | e p r n c ph fl d' id H | id | sh p dl w t rt c d' id H
    | id d' H | dr l t a c d' id H | l dr d' id H | sd rc c d' id H
    | rv re rt c d' id H ].
  - exact Hall.
  - apply users_insert_inv in H.
    destruct H as (? & ? & ? & ? & _ & _ & _ & _ & _ & _ & ->).
    exact Hall.
  - exact Hall.
  - apply loads_insert_inv in H.
    destruct H as (p' & dl' & -> & -> & _ & Hid & ->).
    unfold loads_consistent. simpl.
    pose proof (next_rowid_positive (map load_id (loads d)) (seq_loads d)).
    split; [|split].
    + apply increasing_snoc; [exact Hi|]. intros x Hx. simpl. subst id.
      apply next_rowid_above. now apply in_map.
    + intros l Hl. apply in_app_or in Hl.
      destruct Hl as [Hl|[<-|[]]]; simpl; [|lia].
      specialize (Hw l Hl). lia.
    + intros l Hl. apply in_app_or in Hl.
      destruct Hl as [Hl|[<-|[]]]; [now apply Ha|reflexivity].
  - apply loads_delete_inv in H. destruct H as (_ & ->).
    unfold loads_consistent. simpl. split; [|split].
    + now apply increasing_filter.
    + intros l Hl. apply filter_In in Hl. now apply Hw.
    + intros l Hl. apply filter_In in Hl. now apply Ha.
  - apply trucks_insert_inv in H.
    destruct H as (? & ? & ? & _ & _ & _ & _ & _ & ->). exact Hall.
  - apply applications_insert_inv in H.
    destruct H as (? & _ & _ & _ & _ & ->). exact Hall.
  - apply messages_insert_inv in H.
    destruct H as (? & ? & ? & _ & _ & _ & _ & _ & _ & ->). exact Hall.
  - apply reviews_insert_inv in H.
    destruct H as (? & _ & _ & _ & _ & _ & ->). exact Hall.
Qed.

Lemma foreign_keys_transfer d d' :
  (forall z, user_exists z d = true -> user_exists z d' = true) ->
  (forall a, In a (applications d) -> load_exists (app_load_id a) d = true ->
             load_exists (app_load_id a) d' = true) ->
  (forall l, In l (loads d') ->
             In l (loads d) \/ user_exists (shipper_id l) d' = true) ->
  (forall t, In t (trucks d') ->
             In t (trucks d) \/ user_exists (driver_id t) d' = true) ->
  (forall a, In a (applications d') ->
             In a (applications d)
             \/ (load_exists (app_load_id a) d' = true
                 /\ user_exists (app_driver_id a) d' = true)) ->
  (forall r, In r (reviews d') ->
             In r (reviews d)
             \/ (user_exists (reviewer_id r) d' = true
                 /\ user_exists (reviewee_id r) d' = true)) ->
  foreign_keys_resolve d -> foreign_keys_resolve d'.
Proof.
  intros Hu Hl Hloads Htrucks Happs Hrevs (F1 & F2 & F3 & F4).
  split; [|split; [|split]].
  - intros l Hin. destruct (Hloads l Hin) as [H|H]; auto.
  - intros t Hin. destruct (Htrucks t Hin) as [H|H]; auto.
  - intros a Hin. destruct (Happs a Hin) as [H|H]; [|exact H].
    destruct (F3 a H). split; auto.
  - intros r Hin. destruct (Hrevs r Hin) as [H|H]; [|exact H].
    destruct (F4 r H). split; auto.
Qed.

Lemma writes_foreign_keys now d d' :
  writes now d d' -> foreign_keys_resolve d -> foreign_keys_resolve d'.
Proof.
  intros W Hall. destruct W as
    [ | e p r n c ph fl d' id H | id | sh p dl w t rt c d' id H
    | id d' H | dr l t a c d' id H | l dr d' id H | sd rc c d' id H
    | rv re rt c d' id H ].
  - exact Hall.
  - apply users_insert_inv in H.
    destruct H as (e' & p' & r' & n' & _ & _ & _ & _ & _ & _ & ->).
    apply (foreign_keys_transfer d); try table_kept; try exact Hall.
    + intros z. now apply user_exists_app with
        (l := [mkUser id e' p' r' n' c ph fl now]).
    + intros a _ Hl. exact Hl.
  - apply (foreign_keys_transfer d); try table_kept; try exact Hall.
    + intros z. now rewrite user_exists_approve.
    + intros a _ Hl. exact Hl.
  - apply loads_insert_inv in H.
    destruct H as (p' & dl' & _ & _ & U & _ & ->).
    apply (foreign_keys_transfer d); try table_kept; try key_kept;
      try exact Hall.
    + intros a _. unfold load_exists. simpl. rewrite existsb_app.
      now intros ->.
    + simpl. intros l Hl. apply in_app_or in Hl.
      destruct Hl as [Hl|[<-|[]]]; [now left|right; exact U].
  - apply loads_delete_inv in H. destruct H as (Hfree & ->).
    apply (foreign_keys_transfer d); try table_kept; try key_kept;
      try exact Hall.
    + intros a Ha Hex. apply load_exists_In in Hex.
      destruct Hex as (l & Hl & E). apply load_exists_In. exists l.
      split; [|exact E]. simpl. apply filter_In. split; [exact Hl|].
      rewrite E. now rewrite (Hfree a Ha).
    + simpl. intros l Hl. apply filter_In in Hl. now left.
  - apply trucks_insert_inv in H.
    destruct H as (l' & t' & a' & _ & _ & _ & U & _ & ->).
    apply (foreign_keys_transfer d); try table_kept; try key_kept;
      try exact Hall.
    + intros ? _ Hl. exact Hl.
    + simpl. intros x Hx. apply in_app_or in Hx.
      destruct Hx as [Hx|[<-|[]]]; [now left|right; exact U].
  - apply applications_insert_inv in H.
    destruct H as (z & _ & L & U & _ & ->).
    apply (foreign_keys_transfer d); try table_kept; try key_kept;
      try exact Hall.
    + intros ? _ Hl. exact Hl.
    + simpl. intros x Hx. apply in_app_or in Hx.
      destruct Hx as [Hx|[<-|[]]]; [now left|right; split; [exact L|exact U]].
  - apply messages_insert_inv in H.
    destruct H as (? & ? & ? & _ & _ & _ & _ & _ & _ & ->).
    apply (foreign_keys_transfer d); try table_kept; try key_kept;
      try exact Hall.
    intros ? _ Hl. exact Hl.
  - apply reviews_insert_inv in H.
    destruct H as (z & _ & _ & U & U' & _ & ->).
    apply (foreign_keys_transfer d); try table_kept; try key_kept;
      try exact Hall.
    + intros ? _ Hl. exact Hl.
    + simpl. intros x Hx. apply in_app_or in Hx.
      destruct Hx as [Hx|[<-|[]]]; [now left|right; split; [exact U|exact U']].
Qed.

Lemma writes_consistent now d d' :
  writes now d d' -> consistent d -> consistent d'.
Proof.
  intros W (A & L & F). split; [|split].
  - exact (writes_accounts now d d' W A).
  - exact (writes_loads now d d' W L).
  - exact (writes_foreign_keys now d d' W F).
Qed.

Lemma reachable_consistent s : reachable s -> consistent (db s).
Proof.
  induction 1 as [|now r s _ IH|s _ IH].
  - split; [|split].
    + split; [constructor|]. split; [intros ? []|constructor].
    + split; [constructor|]. split; intros ? [].
    + split; [|split; [|split]]; intros ? [].
  - exact (writes_consistent now _ _ (handle_writes now r s) IH).
  - exact IH.
Qed.

(** ** What every request keeps *)

Lemma auth_failure a next d :
  (forall u, completed (snd (next u d)) \/ fst (next u d) = d) ->
  completed (snd (auth a next d)) \/ fst (auth a next d) = d.
Proof.
  intros H. destruct (auth_cases a next d) as [->|(h & u & _ & _ & _ & ->)].
  - now right.
  - apply H.
Qed.

Lemma route_failure h s :
  completed (snd (h (db s))) \/ fst (h (db s)) = db s ->
  completed (snd (fst (route h s)))
  \/ (fst (fst (route h s)) = s /\ snd (route h s) = []).
Proof.
  unfold route. destruct (h (db s)) as [d' o]. simpl.
  intros [H|H]; [now left|right]. subst d'. now rewrite server_eta.
Qed.

Lemma completed_200 b : completed (Responds 200 b).
Proof. right. now exists b. Qed.

#[local] Hint Resolve completed_200 : server.

(** X1.  A request whose handler does not complete (it answers something
    other than 200, or a store error escapes it) leaves the database as it
    was and emits nothing.  An Express route leaves the rooms as well, so
    the whole state is unchanged; a failing [send_message] event ends the
    process, so the database is kept and every room is lost. *)
Theorem failure_changes_nothing now r s :
  completed (snd (fst (handle now r s)))
  \/ (match r with
      | On_send_message _ _ _ =>
          fst (fst (handle now r s)) = mkServer (db s) []
      | _ => fst (fst (handle now r s)) = s
      end
      /\ snd (handle now r s) = []).
Proof.
  destruct r; simpl;
    try (apply route_failure; try (apply auth_failure; intros u)); simpl;
    auto with server.
  - unfold auth_signup. split_match; simpl; auto with server.
  - unfold auth_login. split_match; simpl; auto with server.
  - unfold admin_users. split_match; simpl; auto with server.
  - unfold admin_users_approve. split_match; simpl; auto with server.
  - unfold loads_post. repeat split_match; simpl; auto with server.
  - unfold loads_delete_route. repeat split_match; simpl; auto with server.
  - unfold trucks_post. repeat split_match; simpl; auto with server.
  - unfold loads_apply. repeat split_match; simpl; auto with server.
  - unfold messages_send. split_match; simpl; auto with server.
  - unfold reviews_post. split_match; simpl; auto with server.
  - left. now left.
  - unfold on_send_message. split_match; simpl; [now right|left; now left].
Qed.

Lemma auth_reads a next d :
  (forall u, fst (next u d) = d) -> fst (auth a next d) = d.
Proof.
  intros H. destruct (auth_cases a next d) as [->|(h & u & _ & _ & _ & ->)];
    [reflexivity|apply H].
Qed.

Lemma route_reads h s :
  fst (h (db s)) = db s ->
  fst (fst (route h s)) = s /\ snd (route h s) = [].
Proof.
  unfold route. destruct (h (db s)) as [d' o]. simpl. intros H.
  subst d'. now rewrite server_eta.
Qed.

(** X2.  Login and every GET route leave the state exactly as it was and
    emit nothing, whatever the header and the parameters. *)
Theorem reads_leave_state now r s :
  reads_only r = true ->
  fst (fst (handle now r s)) = s /\ snd (handle now r s) = [].
Proof.
  intros H. destruct r; try discriminate H; clear H; unfold handle;
    apply route_reads; try (apply auth_reads; intros u); try reflexivity.
  - unfold auth_login. now split_match.
  - unfold admin_users. now split_match.
Qed.

Lemma writes_messages now d d' :
  writes now d d' ->
  exists l, messages d' = messages d ++ l /\ (List.length l <= 1)%nat
            /\ forall m, In m l -> created_at m = now.
Proof.
  assert (N : exists l : list message,
             messages d = messages d ++ l /\ (List.length l <= 1)%nat
             /\ forall m, In m l -> created_at m = now).
  { exists []. rewrite app_nil_r. split; [reflexivity|].
    split; [simpl; lia|intros m []]. }
  intros W. destruct W as
    [ | e p r n c ph fl d' id H | id | sh p dl w t rt c d' id H
    | id d' H | dr l t a c d' id H | l dr d' id H | sd rc c d' id H
    | rv re rt c d' id H ]; try exact N.
  - apply users_insert_inv in H.
    destruct H as (? & ? & ? & ? & _ & _ & _ & _ & _ & _ & ->). exact N.
  - apply loads_insert_inv in H.
    destruct H as (? & ? & _ & _ & _ & _ & ->). exact N.
  - apply loads_delete_inv in H. destruct H as (_ & ->). exact N.
  - apply trucks_insert_inv in H.
    destruct H as (? & ? & ? & _ & _ & _ & _ & _ & ->). exact N.
  - apply applications_insert_inv in H.
    destruct H as (? & _ & _ & _ & _ & ->). exact N.
  - apply messages_insert_inv in H.
    destruct H as (c' & zs & zr & _ & _ & _ & _ & _ & _ & ->).
    exists [mkMessage id zs zr c' now]. split; [reflexivity|].
    split; [simpl; lia|]. now intros m [<-|[]].
  - apply reviews_insert_inv in H.
    destruct H as (? & _ & _ & _ & _ & _ & ->). exact N.
Qed.

(** X3.  Messages are append-only: whatever the request, the rows of
    [messages] stay, in place and unedited, and at most one row, stamped
    with the clock reading, is added after them. *)
Theorem messages_append_only now r s :
  exists l,
    messages (db (fst (fst (handle now r s)))) = messages (db s) ++ l
    /\ (List.length l <= 1)%nat
    /\ forall m, In m l -> created_at m = now.
Proof. exact (writes_messages now _ _ (handle_writes now r s)). Qed.

Lemma writes_users now d d' :
  writes now d d' ->
  users d' = users d
  \/ (exists u, users d' = users d ++ [u])
  \/ (exists id, users d' = map (approve_row id) (users d)).
Proof.
  intros W. destruct W as
    [ | e p r n c ph fl d' id H | id | sh p dl w t rt c d' id H
    | id d' H | dr l t a c d' id H | l dr d' id H | sd rc c d' id H
    | rv re rt c d' id H ]; try (now left).
  - apply users_insert_inv in H.
    destruct H as (? & ? & ? & ? & _ & _ & _ & _ & _ & _ & ->).
    right. left. eexists. reflexivity.
  - right. right. now exists id.
  - apply loads_insert_inv in H.
    destruct H as (? & ? & _ & _ & _ & _ & ->). now left.
  - apply loads_delete_inv in H. destruct H as (_ & ->). now left.
  - apply trucks_insert_inv in H.
    destruct H as (? & ? & ? & _ & _ & _ & _ & _ & ->). now left.
  - apply applications_insert_inv in H.
    destruct H as (? & _ & _ & _ & _ & ->). now left.
  - apply messages_insert_inv in H.
    destruct H as (? & ? & ? & _ & _ & _ & _ & _ & _ & ->). now left.
  - apply reviews_insert_inv in H.
    destruct H as (? & _ & _ & _ & _ & _ & ->). now left.
Qed.

Lemma same_but_flag_refl u : same_but_flag u u.
Proof. repeat split. Qed.

Lemma approve_row_keeps id u :
  same_but_flag u (approve_row id u)
  /\ (is_approved u = 1 -> is_approved (approve_row id u) = 1).
Proof.
  unfold approve_row. destruct (column_is _ _); simpl.
  - split; [repeat split|reflexivity].
  - split; [apply same_but_flag_refl|tauto].
Qed.

(** X4.  Accounts persist: whatever the request, every user row is still
    there afterwards with the same id, email, password, role, name, company,
    phone and creation time, and an approval once given is not taken back. *)
Theorem accounts_persist now r s u :
  In u (users (db s)) ->
  exists u',
    In u' (users (db (fst (fst (handle now r s)))))
    /\ same_but_flag u u'
    /\ (is_approved u = 1 -> is_approved u' = 1).
Proof.
  intros Hu.
  destruct (writes_users now _ _ (handle_writes now r s))
    as [->|[[x ->]|[id ->]]].
  - exists u. split; [exact Hu|]. split; [apply same_but_flag_refl|tauto].
  - exists u. split; [apply in_or_app; now left|].
    split; [apply same_but_flag_refl|tauto].
  - exists (approve_row id u). split; [now apply in_map|].
    apply approve_row_keeps.
Qed.

Lemma NoDup_map_inj {A B} (f : A -> B) l a b :
  NoDup (map f l) -> In a l -> In b l -> f a = f b -> a = b.
Proof.
  induction l as [|x l IH]; simpl; [tauto|].
  intros N Ha Hb E. inversion N as [|? ? Hx N']; subst.
  destruct Ha as [->|Ha], Hb as [->|Hb]; auto.
  - exfalso. apply Hx. rewrite E. now apply in_map.
  - exfalso. apply Hx. rewrite <- E. now apply in_map.
Qed.

Lemma increasing_inj {A} (key : A -> Z) l a b :
  increasing key l -> In a l -> In b l -> key a = key b -> a = b.
Proof.
  intros Hi Ha Hb E.
  pose proof (increasing_find key l a Hi Ha) as Fa.
  pose proof (increasing_find key l b Hi Hb) as Fb.
  rewrite E in Fa. congruence.
Qed.

(** X5.  In every reachable state the accounts are in rowid order with ids
    between 1 and the AUTOINCREMENT counter and pairwise distinct emails, so
    a user row is determined by its id and also by its email. *)
Theorem accounts_stay_unique s :
  reachable s ->
  accounts_unique (db s)
  /\ forall u u', In u (users (db s)) -> In u' (users (db s)) ->
                  user_id u = user_id u' \/ email u = email u' -> u = u'.
Proof.
  intros R. destruct (reachable_consistent s R) as [A _].
  split; [exact A|]. destruct A as (Hi & _ & He).
  intros u u' Hu Hu' [E|E].
  - exact (increasing_inj user_id _ u u' Hi Hu Hu' E).
  - exact (NoDup_map_inj email _ u u' He Hu Hu' E).
Qed.

(** X6.  A signup missing the email, the password, the role or the name, or
    naming an email some account already has (compared exactly), is answered
    400 with the store's constraint error, and nothing is stored. *)
Theorem signup_rejections now e p r n c ph d :
  (e = None \/ p = None \/ r = None \/ n = None ->
   auth_signup now e p r n c ph d
   = (d, Responds 400 (Json_error (Sqlite_message SQLITE_CONSTRAINT_NOTNULL))))
  /\ (forall u, In u (users d) -> e = Some (email u) ->
                p <> None -> r <> None -> n <> None ->
      auth_signup now e p r n c ph d
      = (d, Responds 400 (Json_error (Sqlite_message SQLITE_CONSTRAINT_UNIQUE)))).
Proof.
  split.
  - intros H. unfold auth_signup, users_insert.
    destruct e, p, r, n; try reflexivity.
    destruct H as [H|[H|[H|H]]]; discriminate.
  - intros u Hu -> Hp Hr Hn. unfold auth_signup, users_insert.
    destruct p; [|contradiction]. destruct r; [|contradiction].
    destruct n; [|contradiction].
    replace (existsb _ (users d)) with true; [reflexivity|].
    symmetry. apply existsb_exists. exists u. split; [exact Hu|].
    apply String.eqb_refl.
Qed.

(** ** Accounts and credentials *)

Lemma existsb_false_In {A} (f : A -> bool) l x :
  existsb f l = false -> In x l -> f x = false.
Proof.
  intros E Hx. destruct (f x) eqn:F; [|reflexivity].
  assert (existsb f l = true) by (apply existsb_exists; now exists x).
  congruence.
Qed.

(** X7.  Signup then sign in: when a signup is answered 200 with a row, a
    login with the same email and password in the resulting store is answered
    200 with that same row, and the row's id, sent as the caller-identifier
    header, makes the middleware hand that same row to the route. *)
Theorem signup_then_login now e p r n c ph d d' u :
  auth_signup now e p r n c ph d = (d', Responds 200 (Json_user (Some u))) ->
  auth_login e p d' = (d', Responds 200 (Json_user (Some u)))
  /\ forall h next,
       h <> ""%string -> integer_of_text h = Some (user_id u) ->
       auth (Some h) next d' = next u d'.
Proof.
  unfold auth_signup.
  destruct (users_insert _ _ _ _ _ _ _ _ _) as [err|d1 id] eqn:E;
    [discriminate|].
  pose proof (users_insert_inv _ _ _ _ _ _ _ _ _ _ _ E)
    as (e' & p' & r' & n' & -> & -> & -> & -> & Hfree & Hid & Hd).
  apply users_insert_get in E.
  destruct E as (e2 & p2 & r2 & n2 & [= <-] & [= <-] & [= <-] & [= <-]
                 & Hu & Hget).
  rewrite Hget. intros [= <- <-]. split.
  - unfold auth_login, users_by_credentials. rewrite Hu.
    rewrite find_app_fresh; [reflexivity| |].
    + intros y Hy. rewrite (existsb_false_In _ _ y Hfree Hy). reflexivity.
    + simpl. now rewrite !String.eqb_refl.
  - intros h next Hh Hi. apply auth_passes; [exact Hh|].
    unfold users_by_id, column_is. simpl. rewrite Hi, Hu.
    apply find_app_fresh.
    + intros y Hy. apply Z.eqb_neq. intros Ey. simpl in Ey.
      apply (next_rowid_fresh (map user_id (users d)) (seq_users d)).
      rewrite <- Hid, <- Ey. now apply in_map.
    + apply Z.eqb_refl.
Qed.

(** X8.  In a reachable state, a login naming the email of an account with
    anything but that account's stored password is answered 401: no other
    row can match, emails being unique. *)
Theorem login_needs_the_password s u p :
  reachable s ->
  In u (users (db s)) ->
  p <> Some (password u) ->
  auth_login (Some (email u)) p (db s)
  = (db s, Responds 401 (Json_error (Message "Invalid credentials"))).
Proof.
  intros R Hu Hp. destruct (reachable_consistent s R) as [(_ & _ & He) _].
  unfold auth_login, users_by_credentials.
  destruct p as [p|]; [|reflexivity].
  destruct (find _ _) as [u'|] eqn:F; [|reflexivity].
  exfalso. apply find_some in F. destruct F as [Hu' Hm].
  apply andb_true_iff in Hm. destruct Hm as [E1 E2].
  apply String.eqb_eq in E1, E2.
  assert (u' = u) by exact (NoDup_map_inj email _ u' u He Hu' Hu E1).
  subst u'. congruence.
Qed.

(** X9.  In a reachable state, a non-empty header that reads as the id of a
    stored account authenticates as exactly that row: [GET /api/users/me]
    answers 200 with it and changes nothing. *)
Theorem header_names_one_account now s u h :
  reachable s ->
  In u (users (db s)) ->
  h <> ""%string ->
  integer_of_text h = Some (user_id u) ->
  (forall next, auth (Some h) next (db s) = next u (db s))
  /\ handle now (GET_users_me (Some h)) s
     = (s, Responds 200 (Json_user (Some u)), []).
Proof.
  intros R Hu Hh Hi. destruct (reachable_consistent s R) as [(Hinc & _) _].
  assert (G : users_by_id (Str h) (db s) = Some u).
  { unfold users_by_id, column_is. simpl. rewrite Hi.
    exact (increasing_find user_id _ u Hinc Hu). }
  split.
  - intros next. now apply auth_passes.
  - unfold handle, route. rewrite (auth_passes h u users_me _ Hh G).
    unfold users_me. now rewrite server_eta.
Qed.

(** ** Foreign keys and rowids *)

(** X10.  In every reachable state each load names an existing shipper, each
    truck an existing driver, each application an existing load and an
    existing driver, and each review an existing reviewer and reviewee:
    inserts check the parent rows, no statement deletes a user, and a load is
    deleted only when no application names it. *)
Theorem foreign_keys_hold s : reachable s -> foreign_keys_resolve (db s).
Proof. intros R. now destruct (reachable_consistent s R) as (_ & _ & F). Qed.

Lemma writes_load_ids now d d' :
  writes now d d' ->
  seq_loads d <= seq_loads d'
  /\ forall l, In l (loads d') -> In l (loads d) \/ seq_loads d < load_id l.
Proof.
  assert (N : seq_loads d <= seq_loads d
              /\ forall l, In l (loads d) ->
                           In l (loads d) \/ seq_loads d < load_id l)
    by (split; [lia|auto]).
  intros W. destruct W as
    [ | e p r n c ph fl d' id H | id | sh p dl w t rt c d' id H
    | id d' H | dr l t a c d' id H | l dr d' id H | sd rc c d' id H
    | rv re rt c d' id H ]; try exact N.
  - apply users_insert_inv in H.
    destruct H as (? & ? & ? & ? & _ & _ & _ & _ & _ & _ & ->). exact N.
  - apply loads_insert_inv in H.
    destruct H as (p' & dl' & _ & _ & _ & Hid & ->). simpl.
    pose proof (next_rowid_positive (map load_id (loads d)) (seq_loads d)).
    split; [lia|]. intros l Hl. apply in_app_or in Hl.
    destruct Hl as [Hl|[<-|[]]]; [now left|right; simpl; lia].
  - apply loads_delete_inv in H. destruct H as (_ & ->). simpl.
    split; [lia|]. intros l Hl. apply filter_In in Hl. now left.
  - apply trucks_insert_inv in H.
    destruct H as (? & ? & ? & _ & _ & _ & _ & _ & ->). exact N.
  - apply applications_insert_inv in H.
    destruct H as (? & _ & _ & _ & _ & ->). exact N.
  - apply messages_insert_inv in H.
    destruct H as (? & ? & ? & _ & _ & _ & _ & _ & _ & ->). exact N.
  - apply reviews_insert_inv in H.
    destruct H as (? & _ & _ & _ & _ & _ & ->). exact N.
Qed.

(** X11.  Load ids are not reused.  In a reachable state every load id lies
    between 1 and the AUTOINCREMENT counter; a request never lowers the
    counter, deleting a load included, and any load it adds takes an id above
    the counter, hence above every id handed out before. *)
Theorem load_ids_not_reused now r s :
  reachable s ->
  rowids_within load_id (loads (db s)) (seq_loads (db s))
  /\ seq_loads (db s) <= seq_loads (db (fst (fst (handle now r s))))
  /\ forall l, In l (loads (db (fst (fst (handle now r s))))) ->
               In l (loads (db s)) \/ seq_loads (db s) < load_id l.
Proof.
  intros R. destruct (reachable_consistent s R) as (_ & (_ & Hw & _) & _).
  split; [exact Hw|].
  exact (writes_load_ids now _ _ (handle_writes now r s)).
Qed.

Lemma filter_everything {A} (f : A -> bool) l :
  (forall x, In x l -> f x = true) -> filter f l = l.
Proof.
  induction l as [|x l IH]; simpl; intros H; [reflexivity|].
  rewrite (H x) by now left. f_equal. apply IH. intros y Hy. apply H.
  now right.
Qed.

(** X12.  No statement ever writes a load's status, so in a reachable state
    every load is still "available" and [GET /api/stats], for a caller the
    middleware accepts, reports all loads as active, none as completed, and
    the number of accounts. *)
Theorem stats_counts now s h u :
  reachable s ->
  h <> ""%string ->
  users_by_id (Str h) (db s) = Some u ->
  (forall l, In l (loads (db s)) -> status l = "available"%string)
  /\ handle now (GET_stats (Some h)) s
     = (s,
        Responds 200
          (Json_stats (Z.of_nat (List.length (loads (db s)))) 0
                      (Z.of_nat (List.length (users (db s))))),
        []).
Proof.
  intros R Hh Hu. destruct (reachable_consistent s R) as (_ & (_ & _ & Ha) & _).
  split; [exact Ha|].
  unfold handle, route. rewrite (auth_passes h u stats _ Hh Hu).
  unfold stats, loads_count. rewrite server_eta.
  rewrite filter_everything, filter_nothing; [reflexivity| |].
  - intros l Hl. now rewrite (Ha l Hl).
  - intros l Hl. now rewrite (Ha l Hl).
Qed.

(** ** Loads and applications *)


(** X14.  Role gates.  For a caller the middleware accepts, the admin listing
    and approve answer 403 unless the role is admin, posting a load answers
    403 unless it is shipper, posting a truck and applying answer 403 unless
    it is driver; in each case the state is unchanged and nothing is
    emitted. *)
Theorem role_gates now s h u :
  h <> ""%string ->
  users_by_id (Str h) (db s) = Some u ->
  (is_role u "admin" = false ->
   handle now (GET_admin_users (Some h)) s = (s, forbidden "Forbidden", [])
   /\ forall id,
        handle now (POST_admin_users_approve (Some h) id) s
        = (s, forbidden "Forbidden", []))
  /\ (is_role u "shipper" = false ->
      forall p dl w t rt c,
        handle now (POST_loads (Some h) p dl w t rt c) s
        = (s, forbidden "Only shippers can post loads", []))
  /\ (is_role u "driver" = false ->
      (forall l t a c,
          handle now (POST_trucks (Some h) l t a c) s
          = (s, forbidden "Only drivers can post trucks", []))
      /\ forall id,
           handle now (POST_loads_apply (Some h) id) s
           = (s, forbidden "Only drivers can apply", [])).
Proof.
  intros Hh Hu.
  assert (A : forall next, auth (Some h) next (db s) = next u (db s))
    by (intros next; now apply auth_passes).
  repeat split; intros; unfold handle, route; rewrite A;
    unfold admin_users, admin_users_approve, loads_post, trucks_post,
      loads_apply;
    match goal with H : is_role _ _ = false |- _ => rewrite H end;
    simpl; now rewrite server_eta.
Qed.

Lemma find_filter_out {A} (f : A -> bool) l :
  find f (filter (fun x => negb (f x)) l) = None.
Proof.
  induction l as [|x l IH]; simpl; [reflexivity|].
  destruct (f x) eqn:E; simpl; [exact IH|]. now rewrite E.
Qed.

Lemma not_completed_403 body : ~ completed (Responds 403 body).
Proof. intros [H|[b H]]; discriminate. Qed.

Lemma not_completed_throws e : ~ completed (Throws e).
Proof. intros [H|[b H]]; discriminate. Qed.

(** X15.  Deleting a load.  A caller who is neither the load's shipper nor
    an admin is answered 403; while an application names the load the delete
    does not complete and changes nothing; and a delete answered 200 removes
    exactly the rows with that id, after which the id is no longer found and
    deleting it again is answered 403. *)
Theorem delete_load_rules id u d :
  (forall l, loads_by_id (Str id) d = Some l ->
             shipper_id l <> user_id u -> is_role u "admin" = false ->
             loads_delete_route id u d = (d, forbidden "Unauthorized"))
  /\ (forall a, In a (applications d) ->
                column_is (app_load_id a) (Str id) = true ->
                fst (loads_delete_route id u d) = d
                /\ ~ completed (snd (loads_delete_route id u d)))
  /\ (forall d' b,
         loads_delete_route id u d = (d', Responds 200 b) ->
         loads_by_id (Str id) d' = None
         /\ loads_delete_route id u d' = (d', forbidden "Unauthorized")
         /\ forall l, In l (loads d') <->
                      In l (loads d) /\ column_is (load_id l) (Str id) = false).
Proof.
  split; [|split].
  - intros l Hl Hs Hr. unfold loads_delete_route. rewrite Hl, Hr.
    apply Z.eqb_neq in Hs. now rewrite Hs.
  - intros a Ha Hc. unfold loads_delete_route, loads_delete.
    replace (existsb _ (applications d)) with true
      by (symmetry; apply existsb_exists; now exists a).
    destruct (loads_by_id (Str id) d) as [l|];
      [|split; [reflexivity|apply not_completed_403]].
    destruct (negb _ && negb _); simpl;
      (split; [reflexivity|]);
      [apply not_completed_403|apply not_completed_throws].
  - intros d' b. unfold loads_delete_route.
    destruct (loads_by_id (Str id) d) as [l|]; [|discriminate].
    destruct (negb _ && negb _); [discriminate|].
    destruct (loads_delete (Str id) d) as [e|d1] eqn:E; [discriminate|].
    intros [= <- <-]. apply loads_delete_inv in E. destruct E as (_ & ->).
    assert (G : loads_by_id (Str id)
                  (mkStore (users d)
                     (filter (fun l0 => negb (column_is (load_id l0) (Str id)))
                             (loads d))
                     (trucks d) (applications d) (messages d) (reviews d)
                     (seq_users d) (seq_loads d) (seq_trucks d)
                     (seq_applications d) (seq_messages d) (seq_reviews d))
                = None).
    { unfold loads_by_id. simpl.
      exact (find_filter_out (fun l0 => column_is (load_id l0) (Str id))
                             (loads d)). }
    split; [exact G|]. split; [now rewrite G|].
    intros x. simpl. rewrite filter_In, negb_true_iff. tauto.
Qed.

(** X16.  Applying to a load.  For a caller whose role is driver: when the
    URL parameter reads as the id of an existing load the application is
    stored last, for that load and that driver, with status "pending" and the
    clock reading, and its new id is answered; when it names no existing load
    the store's foreign key error escapes and nothing is stored. *)
Theorem apply_rules now id u d :
  is_role u "driver" = true ->
  (forall z, integer_of_text id = Some z -> load_exists z d = true ->
             user_exists (user_id u) d = true ->
             let a := mkApplication
                        (next_rowid (map application_id (applications d))
                                    (seq_applications d))
                        z (user_id u) "pending" now in
             exists d',
               loads_apply id now u d
               = (d', Responds 200 (Json_id (application_id a)))
               /\ applications d' = applications d ++ [a])
  /\ ((forall z, integer_of_text id = Some z -> load_exists z d = false) ->
      loads_apply id now u d = (d, Throws SQLITE_CONSTRAINT_FOREIGNKEY)).
Proof.
  intros Hrole. split.
  - intros z Hz Hl Hu a. unfold loads_apply, applications_insert.
    rewrite Hrole. simpl. rewrite Hz, Hl, Hu. simpl.
    eexists. split; reflexivity.
  - intros H. unfold loads_apply, applications_insert.
    rewrite Hrole. simpl.
    destruct (integer_of_text id) as [z|]; [|reflexivity].
    now rewrite (H z eq_refl).
Qed.


(** ** Rooms *)

Lemma js_string_num_inj a b : js_string (Num a) = js_string (Num b) -> a = b.
Proof.
  assert (P : forall z,
             NilZero.int_of_string (NilZero.string_of_int (Z.to_int z))
             = Some (Z.to_int z)).
  { intros z. apply NilZero.isi; destruct z; simpl; intros [= H];
      try discriminate H; exact (Unsigned.to_uint_nonnil _ H). }
  simpl. intros E. apply DecimalZ.to_int_inj.
  pose proof (P a) as Pa. rewrite E, P in Pa. congruence.
Qed.

Lemma user_room_num a b :
  String.eqb (user_room (Num a)) (user_room (Num b)) = (a =? b).
Proof.
  destruct (Z.eqb_spec a b) as [->|N]; [apply String.eqb_refl|].
  apply String.eqb_neq. intros E. apply N, js_string_num_inj.
  unfold user_room in E. simpl in E. now injection E.
Qed.

Lemma in_room_join k r sock r0 l :
  in_room k r (socket_join sock r0 l)
  = (Nat.eqb sock k && String.eqb r0 r) || in_room k r l.
Proof.
  unfold socket_join. destruct (in_room sock r0 l) eqn:E.
  - destruct (Nat.eqb_spec sock k) as [->|N]; [|reflexivity].
    destruct (String.eqb_spec r0 r) as [->|N']; [|reflexivity].
    now rewrite E.
  - unfold in_room. rewrite existsb_app. simpl.
    rewrite orb_false_r. apply orb_comm.
Qed.

(** X19.  Joining touches only the rooms: the database stays, the connection
    is in the room of the identifier it joined as, no membership is lost, none
    but that one is gained, and joining the same room again changes
    nothing. *)
Theorem join_is_idempotent now now' sock u s :
  let s1 := fst (fst (handle now (On_join sock u) s)) in
  db s1 = db s
  /\ in_room sock (user_room u) (rooms s1) = true
  /\ (forall k r, in_room k r (rooms s1) = true <->
                  in_room k r (rooms s) = true
                  \/ (k = sock /\ r = user_room u))
  /\ fst (fst (handle now' (On_join sock u) s1)) = s1.
Proof.
  simpl. split; [reflexivity|].
  assert (J : in_room sock (user_room u)
                (socket_join sock (user_room u) (rooms s)) = true)
    by (rewrite in_room_join, Nat.eqb_refl, String.eqb_refl; reflexivity).
  split; [exact J|]. split.
  - intros k r. rewrite in_room_join, orb_true_iff, andb_true_iff,
      Nat.eqb_eq, String.eqb_eq.
    split; intros [H|H]; try tauto; destruct H; subst; tauto.
  - unfold on_join. simpl. f_equal. unfold socket_join at 1. now rewrite J.
Qed.

(** X18.  A connection that was in no room joins as the numeric identifier
    [u]; of an accepted [send_message] from [a] to [b] (both numeric) it then
    receives the stored row once if [u] is the receiver, once more if [u] is
    the sender, and nothing if [u] is neither. *)
Theorem fresh_session_receives now now' sock u a b c s s1 es :
  (forall r, in_room sock r (rooms s) = false) ->
  handle now' (On_send_message (Num a) (Num b) c)
         (fst (fst (handle now (On_join sock (Num u)) s)))
  = (s1, Returns, es) ->
  exists m,
    In m (messages (db s1)) /\ sender_id m = a /\ receiver_id m = b
    /\ received sock (rooms s1) es
       = (if b =? u then [Some m] else [])
         ++ (if a =? u then [Some m] else []).
Proof.
  intros Hfresh. unfold handle, on_join, on_send_message. simpl db.
  destruct (messages_insert_cases now' (Num a) (Num b) c (db s))
    as [(c' & m & d' & _ & _ & _ & Hrow & Happ & -> & ->)|[_ [e ->]]];
    [|discriminate].
  destruct Hrow as (_ & [= Hs] & [= Hr] & _).
  intros [= <- <-]. exists m.
  split; [|split; [now symmetry|split; [now symmetry|]]].
  - destruct Happ as [Hm _]. simpl. rewrite Hm. apply in_or_app. right.
    now left.
  - unfold received. cbn [filter room rooms].
    rewrite !in_room_join, !Hfresh, Nat.eqb_refl, !orb_false_r.
    cbn [andb]. rewrite !user_room_num, (Z.eqb_sym u b), (Z.eqb_sym u a).
    now destruct (b =? u), (a =? u).
Qed.

(** X20.  The history route discloses only the caller's own messages: every
    message in a 200 answer is a stored message whose sender or receiver is
    the account the middleware found for the header. *)
Theorem history_lists_own_messages now a o s s' h es :
  handle now (GET_messages a o) s = (s', Responds 200 (Json_messages h), es) ->
  exists header u,
    a = Some header
    /\ users_by_id (Str header) (db s) = Some u
    /\ forall m, In m h ->
                 In m (messages (db s))
                 /\ (sender_id m = user_id u \/ receiver_id m = user_id u).
Proof.
  unfold handle, route.
  destruct (auth_cases a (messages_get o) (db s))
    as [->|(header & u & -> & Hu & _ & ->)]; [discriminate|].
  unfold messages_get, messages_between. intros [= _ <- _].
  exists header, u. split; [reflexivity|]. split; [exact Hu|].
  intros m Hm. apply order_by_created_at_In, filter_In in Hm.
  destruct Hm as [Hin Hc]. split; [exact Hin|].
  unfold conversation_row, column_is in Hc. simpl in Hc.
  apply orb_true_iff in Hc. destruct Hc as [Hc|Hc];
    apply andb_true_iff in Hc; destruct Hc as [H1 H2].
  - left. now apply Z.eqb_eq.
  - right. destruct (integer_of_text o); [|discriminate].
    now apply Z.eqb_eq.
Qed.

(** ** Trucks, approval of an unknown id, message ids *)

(** X22.  Posting a truck.  For a caller whose role is driver: with a
    location, a type and an availability date the truck is stored last with
    the caller as driver and the clock reading, and its new id is answered;
    with any of the three missing the store's NOT NULL error escapes and
    nothing is stored. *)
Theorem post_truck_rules now l t a c u d :
  is_role u "driver" = true ->
  (forall l' t' a',
      l = Some l' -> t = Some t' -> a = Some a' ->
      user_exists (user_id u) d = true ->
      let row := mkTruck (next_rowid (map truck_id (trucks d)) (seq_trucks d))
                         (user_id u) l' t' a' c now in
      exists d',
        trucks_post l t a c now u d
        = (d', Responds 200 (Json_id (truck_id row)))
        /\ trucks d' = trucks d ++ [row])
  /\ (l = None \/ t = None \/ a = None ->
      trucks_post l t a c now u d = (d, Throws SQLITE_CONSTRAINT_NOTNULL)).
Proof.
  intros Hrole. split.
  - intros l' t' a' -> -> -> Hu row. unfold trucks_post, trucks_insert.
    rewrite Hrole, Hu. simpl. eexists. split; reflexivity.
  - intros H. unfold trucks_post, trucks_insert. rewrite Hrole. simpl.
    destruct l, t, a; try reflexivity.
    destruct H as [H|[H|H]]; discriminate.
Qed.

(** X23.  Approving an identifier that matches no account: an admin caller
    is still answered 200 with success, and the state is unchanged. *)
Theorem approve_unknown_id now s h u id :
  h <> ""%string ->
  users_by_id (Str h) (db s) = Some u ->
  is_role u "admin" = true ->
  users_by_id (Str id) (db s) = None ->
  handle now (POST_admin_users_approve (Some h) id) s
  = (s, Responds 200 Json_success, []).
Proof.
  intros Hh Hu Hrole Hnone. unfold handle, route.
  rewrite (auth_passes h u (admin_users_approve id) _ Hh Hu).
  unfold admin_users_approve. rewrite Hrole. simpl.
  rewrite users_approve_noop; [now rewrite server_eta|].
  intros x Hx Hc. unfold users_by_id in Hnone.
  apply (find_none _ _ Hnone) in Hx. congruence.
Qed.

(** X24.  In every reachable state the messages are stored in increasing
    order of their ids, so a message is determined by its id. *)
Theorem message_ids_unique s :
  reachable s ->
  rowid_order (messages (db s))
  /\ forall m m', In m (messages (db s)) -> In m' (messages (db s)) ->
                  message_id m = message_id m' -> m = m'.
Proof.
  intros R. destruct (reachable_well_formed s R) as [Ho _].
  split; [exact Ho|]. intros m m'.
  exact (increasing_inj message_id _ m m' Ho).
Qed.

End Server.

(** ** The sample states are reachable *)

Lemma decimal_integer_1 : decimal_integer "1" = Some 1.
Proof. reflexivity. Qed.

Lemma decimal_integer_2 : decimal_integer "2" = Some 2.
Proof. reflexivity. Qed.

Lemma two_users_run : run decimal_integer decimal_real 20 (mkServer two_users []).
Proof.
  change (mkServer two_users [])
    with (fst (fst (handle decimal_integer decimal_real 20
                      (POST_auth_signup (Some "bob@example.com"%string)
                         (Some "hunter2"%string) (Some "driver"%string)
                         (Some "Bob"%string) None None)
                      (fst (fst (handle decimal_integer decimal_real 10
                                   (POST_auth_signup
                                      (Some "alice@example.com"%string)
                                      (Some "secret"%string)
                                      (Some "shipper"%string)
                                      (Some "Alice"%string) None None)
                                   initial)))))).
  apply run_handle with (t := 10); [|lia].
  apply run_handle with (t := 0); [|lia].
  apply run_initial.
Qed.

Lemma two_users_reachable : reachable decimal_integer decimal_real (mkServer two_users []).
Proof. exact (run_reachable _ _ _ _ two_users_run). Qed.

Lemma chatting_run : run decimal_integer decimal_real 30 (mkServer chatting []).
Proof.
  change (mkServer chatting [])
    with (fst (fst (handle decimal_integer decimal_real 30
                      (POST_messages_send (Some "2"%string) (Num 1)
                         (Some "Hi back"%string))
                      (fst (fst (handle decimal_integer decimal_real 30
                                   (POST_messages_send (Some "1"%string)
                                      (Num 2) (Some "Hello"%string))
                                   (mkServer two_users []))))))).
  apply run_handle with (t := 30); [|lia].
  apply run_handle with (t := 20); [|lia].
  exact two_users_run.
Qed.

Lemma chatting_reachable : reachable decimal_integer decimal_real (mkServer chatting []).
Proof. exact (run_reachable _ _ _ _ chatting_run). Qed.

(** The scenario of two users exchanging "Hello" and "Hi back" within the
    same second: the history lists them in insertion order, from either
    side. *)
Lemma history_of_chatting :
  handle decimal_integer decimal_real 31 (GET_messages (Some "1"%string) "2")
         (mkServer chatting [])
  = (mkServer chatting [], Responds 200 (Json_messages [hello; hi_back]), [])
  /\ handle decimal_integer decimal_real 31 (GET_messages (Some "2"%string) "1")
            (mkServer chatting [])
     = (mkServer chatting [], Responds 200 (Json_messages [hello; hi_back]),
        []).
Proof. split; reflexivity. Qed.

(** History follows the stored stamps: were the clock set back between two
    sends, the later insert would be listed first. *)
Lemma history_follows_stamps :
  messages_get decimal_integer "2" alice
    (mkStore [alice; bob] [] [] [] [hello; mkMessage 2 2 1 "Hi back" 29] []
             2 0 0 0 2 0)
  = (mkStore [alice; bob] [] [] [] [hello; mkMessage 2 2 1 "Hi back" 29] []
             2 0 0 0 2 0,
     Responds 200 (Json_messages [mkMessage 2 2 1 "Hi back" 29; hello])).
Proof. reflexivity. Qed.

(** ** The properties on the sample states *)

(** C1 as first stated fails: a send whose content is the empty text, between
    two existing users, is accepted on both paths and the message is stored. *)
Lemma empty_content_is_stored :
  handle decimal_integer decimal_real 30 (On_send_message (Num 1) (Num 2) (Some ""%string))
         (mkServer two_users [])
  = (mkServer (mkStore [alice; bob] [] [] [] [mkMessage 1 1 2 "" 30] []
                       2 0 0 0 1 0) [],
     Returns,
     [mkEmission "user_2" (Some (mkMessage 1 1 2 "" 30));
      mkEmission "user_1" (Some (mkMessage 1 1 2 "" 30))])
  /\ handle decimal_integer decimal_real 30
            (POST_messages_send (Some "1"%string) (Num 2) (Some ""%string))
            (mkServer two_users [])
     = (mkServer (mkStore [alice; bob] [] [] [] [mkMessage 1 1 2 "" 30] []
                          2 0 0 0 1 0) [],
        Responds 200 (Json_message (Some (mkMessage 1 1 2 "" 30))),
        []).
Proof. split; reflexivity. Qed.

Lemma send_persists_or_fails_witness :
  (exists m d',
      handle decimal_integer decimal_real 30
             (On_send_message (Num 1) (Num 2) (Some "Hello"%string)) listening
      = (mkServer d' (rooms listening), Returns,
         [mkEmission "user_2" (Some m); mkEmission "user_1" (Some m)])
      /\ content m = "Hello"%string /\ created_at m = 30
      /\ messages d' = [m])
  /\ messages_insert decimal_integer 30 (Num 1) (Num 9) (Some "Hello"%string)
                     two_users
     = Failed SQLITE_CONSTRAINT_FOREIGNKEY
  /\ db (fst (fst (handle decimal_integer decimal_real 30
                     (On_send_message (Num 1) (Num 9) (Some "Hello"%string))
                     listening))) = two_users.
Proof.
  split.
  - destruct (send_persists_or_fails decimal_integer decimal_real 30 (Num 1)
                (Num 2) (Some "Hello"%string) listening alice)
      as [[(c & m & d' & Hc & _ & _ & Hrow & Happ & Hrun)|[Hbad _]] _].
    + exists m, d'. destruct Hrow as (_ & _ & _ & Hcontent & Hnow).
      destruct Happ as [Hm _]. injection Hc as <-. auto.
    + exfalso. destruct Hbad as [H|[H|H]]; [discriminate| |]; apply H.
      * exists 1. split; reflexivity.
      * exists 2. split; reflexivity.
  - destruct (send_persists_or_fails decimal_integer decimal_real 30 (Num 1)
                (Num 9) (Some "Hello"%string) listening alice)
      as [[(c & m & d' & _ & _ & (z & Hz & Hu) & _)
          |(_ & Hfail & Hdb & _)] _].
    + injection Hz as <-. discriminate Hu.
    + split; [exact Hfail|exact Hdb].
Defined.

(** C2 fails on the REST path.  With a connection joined as user 2, the POST
    by user 1 to user 2 stores the message and answers with it but emits
    nothing, so the connection receives nothing; the same send made through
    the [send_message] event emits the stored row to both rooms and the
    connection receives it once. *)
Theorem rest_send_emits_nothing :
  handle decimal_integer decimal_real 30
         (POST_messages_send (Some "1"%string) (Num 2) (Some "Hello"%string))
         listening
  = (mkServer (mkStore [alice; bob] [] [] [] [hello] [] 2 0 0 0 1 0)
              [(7%nat, "user_2"%string)],
     Responds 200 (Json_message (Some hello)),
     [])
  /\ received 7 (rooms listening) [] = []
  /\ handle decimal_integer decimal_real 30
            (On_send_message (Num 1) (Num 2) (Some "Hello"%string)) listening
     = (mkServer (mkStore [alice; bob] [] [] [] [hello] [] 2 0 0 0 1 0)
                 [(7%nat, "user_2"%string)],
        Returns,
        [mkEmission "user_2" (Some hello); mkEmission "user_1" (Some hello)])
  /\ received 7 (rooms listening)
              [mkEmission "user_2" (Some hello);
               mkEmission "user_1" (Some hello)]
     = [Some hello].
Proof. repeat split. Qed.

Lemma history_is_the_conversation_witness :
  reachable decimal_integer decimal_real (mkServer chatting [])
  /\ decimal_integer "2" = Some 2
  /\ exists h,
       messages_get decimal_integer "2" alice chatting
       = (chatting, Responds 200 (Json_messages h))
       /\ Permutation h [hello; hi_back]
       /\ StronglySorted chronological h.
Proof.
  split; [exact chatting_reachable|]. split; [reflexivity|].
  destruct (history_is_the_conversation decimal_integer decimal_real (mkServer chatting [])
              alice "2" 2 chatting_reachable eq_refl)
    as (h & Hget & Hperm & _ & Hsorted & _).
  exists h. split; [exact Hget|]. split; [exact Hperm|exact Hsorted].
Defined.

Lemma history_symmetric_witness :
  decimal_integer "1" = Some (user_id alice)
  /\ decimal_integer "2" = Some (user_id bob)
  /\ messages_get decimal_integer "2" alice chatting
     = messages_get decimal_integer "1" bob chatting.
Proof.
  split; [reflexivity|]. split; [reflexivity|].
  apply (history_symmetric decimal_integer chatting alice bob "1" "2");
    reflexivity.
Defined.

(** C4 as first stated fails: in a state the server can reach, with one
    message stamped 30, a reply sent when the clock reads 29 is the most
    recent insert and is stored, yet the history lists it first, not last. *)
Lemma clock_set_back_lists_reply_first :
  reachable decimal_integer decimal_real (mkServer greeted [])
  /\ handle decimal_integer decimal_real 29
            (POST_messages_send (Some "2"%string) (Num 1)
                                (Some "Hi back"%string))
            (mkServer greeted [])
     = (mkServer replied_early [],
        Responds 200 (Json_message (Some early_reply)), [])
  /\ handle decimal_integer decimal_real 31
            (GET_messages (Some "2"%string) "1") (mkServer replied_early [])
     = (mkServer replied_early [],
        Responds 200 (Json_messages [early_reply; hello]), [])
  /\ last [early_reply; hello] early_reply <> early_reply.
Proof.
  split; [|split; [reflexivity|split; [reflexivity|discriminate]]].
  change (mkServer greeted [])
    with (fst (fst (handle decimal_integer decimal_real 30
                      (POST_messages_send (Some "1"%string) (Num 2)
                                          (Some "Hello"%string))
                      (mkServer two_users [])))).
  apply reachable_handle. exact two_users_reachable.
Qed.

Lemma send_then_history_witness :
  run decimal_integer decimal_real 30 (mkServer chatting [])
  /\ exists d' m h,
       messages_send decimal_integer (Num 2) (Some "Again"%string) 31 alice
                     chatting
       = (d', Responds 200 (Json_message (Some m)))
       /\ messages_get decimal_integer "2" alice d'
          = (d', Responds 200 (Json_messages h))
       /\ count_occ message_eq_dec h m = 1%nat
       /\ exists earlier, h = earlier ++ [m].
Proof.
  split; [exact chatting_run|].
  destruct (send_then_history decimal_integer decimal_real 31 alice (Num 2)
              "Again" "2" 2 (mkServer chatting []) eq_refl eq_refl eq_refl
              eq_refl)
    as (d' & m & h & Hsend & Hget & Hcount & _ & Hrun).
  exists d', m, h. repeat (split; [assumption|]).
  apply (Hrun 30 chatting_run). lia.
Defined.

Lemma messages_reference_users_witness :
  reachable decimal_integer decimal_real (mkServer chatting [])
  /\ references_users chatting
  /\ exists e,
       handle decimal_integer decimal_real 40
              (On_send_message (Num 1) (Num 9) (Some "Hello"%string))
              (mkServer chatting [])
       = (mkServer chatting [], Throws e, []).
Proof.
  split; [exact chatting_reachable|].
  destruct (messages_reference_users decimal_integer decimal_real (mkServer chatting [])
              chatting_reachable) as [Href Hsend].
  split; [exact Href|].
  apply (Hsend 40 None (Num 1) (Num 9) (Some "Hello"%string)).
  intros (z & Hz & Hu). injection Hz as <-. discriminate Hu.
Defined.

Lemma approval_flag_writers_witness :
  exists u,
    users (db (fst (fst (handle decimal_integer decimal_real 25
                           (POST_auth_signup (Some "root@example.com"%string)
                              (Some "toor"%string) (Some "admin"%string)
                              (Some "Root"%string) None None)
                           (mkServer two_users []))))) = [alice; bob; u]
    /\ is_approved u = 1.
Proof.
  destruct (approval_flag_writers decimal_integer decimal_real 25
              (POST_auth_signup (Some "root@example.com"%string)
                 (Some "toor"%string) (Some "admin"%string)
                 (Some "Root"%string) None None)
              (mkServer two_users []))
    as [H|[(e & p & ro & n & c & ph & u & Hr & Hu & Hadmin & _)
          |(a & id & Hr & _)]].
  - discriminate H.
  - exists u. split; [exact Hu|]. apply Hadmin. now injection Hr as _ _ <- _ _ _.
  - discriminate Hr.
Defined.

Lemma unauthenticated_is_rejected_witness :
  users_by_id decimal_integer (Str "9") two_users = None
  /\ handle decimal_integer decimal_real 30
            (POST_messages_send (Some "9"%string) (Num 2)
                                (Some "Hello"%string))
            (mkServer two_users [])
     = (mkServer two_users [],
        Responds 401 (Json_error (Message "Unauthorized")), [])
  /\ handle decimal_integer decimal_real 30 (GET_messages None "2") (mkServer two_users [])
     = (mkServer two_users [],
        Responds 401 (Json_error (Message "Unauthorized")), []).
Proof.
  split; [reflexivity|]. split.
  - apply (unauthenticated_is_rejected decimal_integer decimal_real (Some "9"%string)
             (mkServer two_users [])).
    right. right. exists "9"%string. split; reflexivity.
  - apply (unauthenticated_is_rejected decimal_integer decimal_real None
             (mkServer two_users [])).
    left. reflexivity.
Defined.

Lemma answers_carry_password_witness :
  In alice (users two_users)
  /\ exists u,
       auth_login (Some "alice@example.com"%string) (Some "secret"%string)
                  two_users
       = (two_users, Responds 200 (Json_user (Some u)))
       /\ password u = "secret"%string.
Proof.
  assert (Hin : In alice (users two_users)) by (left; reflexivity).
  split; [exact Hin|].
  destruct (answers_carry_password decimal_integer) as (_ & Hlogin & _).
  exact (Hlogin two_users alice Hin).
Defined.


(** ** The store-wide properties on the sample states *)

Lemma listed_reachable : reachable decimal_integer decimal_real (mkServer listed []).
Proof.
  change (mkServer listed [])
    with (fst (fst (handle decimal_integer decimal_real 40
                      (POST_loads (Some "1"%string) (Some "Lahore"%string)
                         (Some "Karachi"%string) (Some "10t"%string)
                         (Some "Flatbed"%string) (Num 500) None)
                      (mkServer two_users [])))).
  apply reachable_handle. exact two_users_reachable.
Qed.

Lemma marketplace_reachable :
  reachable decimal_integer decimal_real (mkServer marketplace []).
Proof.
  change (mkServer marketplace [])
    with (fst (fst (handle decimal_integer decimal_real 45
                      (POST_loads_apply (Some "2"%string) "1")
                      (mkServer listed [])))).
  apply reachable_handle. exact listed_reachable.
Qed.

Lemma emptied_reachable : reachable decimal_integer decimal_real (mkServer emptied []).
Proof.
  change (mkServer emptied [])
    with (fst (fst (handle decimal_integer decimal_real 41
                      (DELETE_loads (Some "1"%string) "1")
                      (mkServer listed [])))).
  apply reachable_handle. exact listed_reachable.
Qed.

Lemma reads_leave_state_witness :
  reads_only (GET_messages (Some "1"%string) "2") = true
  /\ fst (fst (handle decimal_integer decimal_real 50 (GET_messages (Some "1"%string) "2")
                      (mkServer chatting []))) = mkServer chatting [].
Proof.
  split; [reflexivity|].
  apply (reads_leave_state decimal_integer decimal_real 50
           (GET_messages (Some "1"%string) "2") (mkServer chatting [])).
  reflexivity.
Defined.

Lemma messages_append_only_witness :
  exists l,
    messages (db (fst (fst (handle decimal_integer decimal_real 31
                              (On_send_message (Num 1) (Num 2)
                                               (Some "Again"%string))
                              (mkServer chatting [])))))
    = [hello; hi_back] ++ l
    /\ (List.length l <= 1)%nat.
Proof.
  destruct (messages_append_only decimal_integer decimal_real 31
              (On_send_message (Num 1) (Num 2) (Some "Again"%string))
              (mkServer chatting [])) as (l & H1 & H2 & _).
  exists l. split; [exact H1|exact H2].
Defined.

Lemma accounts_persist_witness :
  In bob (users with_admin)
  /\ exists u',
       In u' (users (db (fst (fst (handle decimal_integer decimal_real 40
                                     (POST_admin_users_approve
                                        (Some "3"%string) "2")
                                     (mkServer with_admin []))))))
       /\ same_but_flag bob u'.
Proof.
  assert (H : In bob (users with_admin)) by (right; left; reflexivity).
  split; [exact H|].
  destruct (accounts_persist decimal_integer decimal_real 40
              (POST_admin_users_approve (Some "3"%string) "2")
              (mkServer with_admin []) bob H) as (u' & H1 & H2 & _).
  exists u'. split; [exact H1|exact H2].
Defined.

Lemma accounts_stay_unique_witness :
  reachable decimal_integer decimal_real (mkServer chatting [])
  /\ accounts_unique chatting.
Proof.
  split; [exact chatting_reachable|].
  apply (accounts_stay_unique decimal_integer decimal_real (mkServer chatting [])
           chatting_reachable).
Defined.

Lemma signup_rejections_witness :
  In alice (users two_users)
  /\ auth_signup decimal_integer 50 (Some "alice@example.com"%string)
                 (Some "other"%string) (Some "driver"%string)
                 (Some "Alice again"%string) None None two_users
     = (two_users,
        Responds 400 (Json_error (Sqlite_message SQLITE_CONSTRAINT_UNIQUE)))
  /\ auth_signup decimal_integer 50 (Some "carol@example.com"%string) None
                 (Some "driver"%string) (Some "Carol"%string) None None
                 two_users
     = (two_users,
        Responds 400 (Json_error (Sqlite_message SQLITE_CONSTRAINT_NOTNULL))).
Proof.
  assert (H : In alice (users two_users)) by (left; reflexivity).
  split; [exact H|]. split.
  - apply (proj2 (signup_rejections decimal_integer 50
                    (Some "alice@example.com"%string) (Some "other"%string)
                    (Some "driver"%string) (Some "Alice again"%string)
                    None None two_users) alice H);
      [reflexivity|discriminate|discriminate|discriminate].
  - apply (proj1 (signup_rejections decimal_integer 50
                    (Some "carol@example.com"%string) None
                    (Some "driver"%string) (Some "Carol"%string)
                    None None two_users)).
    right. left. reflexivity.
Defined.

Lemma signup_then_login_witness :
  auth_signup decimal_integer 25 (Some "root@example.com"%string)
              (Some "toor"%string) (Some "admin"%string)
              (Some "Root"%string) None None two_users
  = (with_admin, Responds 200 (Json_user (Some root)))
  /\ auth_login (Some "root@example.com"%string) (Some "toor"%string)
                with_admin
     = (with_admin, Responds 200 (Json_user (Some root)))
  /\ auth decimal_integer (Some "3"%string) users_me with_admin
     = users_me root with_admin.
Proof.
  assert (H : auth_signup decimal_integer 25 (Some "root@example.com"%string)
                (Some "toor"%string) (Some "admin"%string)
                (Some "Root"%string) None None two_users
              = (with_admin, Responds 200 (Json_user (Some root))))
    by reflexivity.
  split; [exact H|].
  destruct (signup_then_login decimal_integer 25 _ _ _ _ _ _ _ _ _ H)
    as [Hlogin Hauth].
  split; [exact Hlogin|].
  apply Hauth; [discriminate|reflexivity].
Defined.

Lemma login_needs_the_password_witness :
  reachable decimal_integer decimal_real (mkServer two_users [])
  /\ auth_login (Some "alice@example.com"%string) (Some "guess"%string)
                two_users
     = (two_users, Responds 401 (Json_error (Message "Invalid credentials"))).
Proof.
  split; [exact two_users_reachable|].
  apply (login_needs_the_password decimal_integer decimal_real (mkServer two_users [])
           alice (Some "guess"%string) two_users_reachable).
  - left. reflexivity.
  - discriminate.
Defined.

Lemma header_names_one_account_witness :
  reachable decimal_integer decimal_real (mkServer two_users [])
  /\ handle decimal_integer decimal_real 50 (GET_users_me (Some "2"%string))
            (mkServer two_users [])
     = (mkServer two_users [], Responds 200 (Json_user (Some bob)), []).
Proof.
  split; [exact two_users_reachable|].
  apply (header_names_one_account decimal_integer decimal_real 50 (mkServer two_users [])
           bob "2" two_users_reachable).
  - right. left. reflexivity.
  - discriminate.
  - reflexivity.
Defined.

Lemma foreign_keys_hold_witness :
  reachable decimal_integer decimal_real (mkServer marketplace [])
  /\ foreign_keys_resolve marketplace.
Proof.
  split; [exact marketplace_reachable|].
  apply (foreign_keys_hold decimal_integer decimal_real (mkServer marketplace [])
           marketplace_reachable).
Defined.

Lemma load_ids_not_reused_witness :
  reachable decimal_integer decimal_real (mkServer emptied [])
  /\ forall l,
       In l (loads (db (fst (fst (handle decimal_integer decimal_real 60
                                    (POST_loads (Some "1"%string)
                                       (Some "Multan"%string)
                                       (Some "Quetta"%string) None None
                                       Null None)
                                    (mkServer emptied []))))))
       -> In l (loads emptied) \/ seq_loads emptied < load_id l.
Proof.
  split; [exact emptied_reachable|].
  apply (load_ids_not_reused decimal_integer decimal_real 60
           (POST_loads (Some "1"%string) (Some "Multan"%string)
              (Some "Quetta"%string) None None Null None)
           (mkServer emptied []) emptied_reachable).
Defined.

Lemma stats_counts_witness :
  reachable decimal_integer decimal_real (mkServer marketplace [])
  /\ handle decimal_integer decimal_real 50 (GET_stats (Some "1"%string))
            (mkServer marketplace [])
     = (mkServer marketplace [], Responds 200 (Json_stats 1 0 2), []).
Proof.
  split; [exact marketplace_reachable|].
  apply (stats_counts decimal_integer decimal_real 50 (mkServer marketplace []) "1" alice
           marketplace_reachable).
  - discriminate.
  - reflexivity.
Defined.


Lemma role_gates_witness :
  users_by_id decimal_integer (Str "2") two_users = Some bob
  /\ is_role bob "shipper" = false
  /\ handle decimal_integer decimal_real 50
            (POST_loads (Some "2"%string) (Some "Lahore"%string)
                        (Some "Karachi"%string) None None Null None)
            (mkServer two_users [])
     = (mkServer two_users [], forbidden "Only shippers can post loads", []).
Proof.
  split; [reflexivity|]. split; [reflexivity|].
  assert (Hh : "2"%string <> ""%string) by discriminate.
  destruct (role_gates decimal_integer decimal_real 50 (mkServer two_users []) "2" bob
              Hh eq_refl) as (_ & Hshipper & _).
  apply Hshipper. reflexivity.
Defined.

Lemma delete_load_rules_witness :
  loads_by_id decimal_integer (Str "1") marketplace = Some cargo
  /\ loads_delete_route decimal_integer "1" bob marketplace
     = (marketplace, forbidden "Unauthorized")
  /\ fst (loads_delete_route decimal_integer "1" alice marketplace)
     = marketplace
  /\ loads_by_id decimal_integer (Str "1") emptied = None.
Proof.
  split; [reflexivity|].
  destruct (delete_load_rules decimal_integer decimal_real "1" bob marketplace)
    as (Hforbid & _ & _).
  destruct (delete_load_rules decimal_integer decimal_real "1" alice marketplace)
    as (_ & Hbusy & _).
  destruct (delete_load_rules decimal_integer decimal_real "1" alice listed)
    as (_ & _ & Hgone).
  split; [|split].
  - apply (Hforbid cargo); [reflexivity|discriminate|reflexivity].
  - apply (Hbusy bid); [left; reflexivity|reflexivity].
  - apply (Hgone emptied Json_success). reflexivity.
Defined.

Lemma apply_rules_witness :
  is_role bob "driver" = true
  /\ (exists d',
         loads_apply decimal_integer "1" 45 bob listed
         = (d', Responds 200 (Json_id 1))
         /\ applications d' = [bid])
  /\ loads_apply decimal_integer "9" 45 bob listed
     = (listed, Throws SQLITE_CONSTRAINT_FOREIGNKEY).
Proof.
  split; [reflexivity|].
  destruct (apply_rules decimal_integer 45 "1" bob listed eq_refl)
    as [Hok _].
  destruct (apply_rules decimal_integer 45 "9" bob listed eq_refl)
    as [_ Hmissing].
  split.
  - pose proof (Hok 1 eq_refl eq_refl eq_refl) as H. cbv zeta in H.
    destruct H as (d' & H1 & H2). exists d'. split; [exact H1|exact H2].
  - apply Hmissing. intros z [= <-]. reflexivity.
Defined.

Lemma socket_send_fans_out_witness :
  exists m,
    In m [hello]
    /\ received 7 (rooms listening)
                [mkEmission "user_2" (Some hello);
                 mkEmission "user_1" (Some hello)]
       = [Some m] ++ [].
Proof.
  destruct (socket_send_fans_out decimal_integer decimal_real 30 (Num 1) (Num 2)
              (Some "Hello"%string) listening
              (mkServer (mkStore [alice; bob] [] [] [] [hello] []
                                 2 0 0 0 1 0)
                        [(7%nat, "user_2"%string)])
              [mkEmission "user_2" (Some hello);
               mkEmission "user_1" (Some hello)]
              7%nat eq_refl) as (m & Hin & _ & Hrecv).
  exists m. split; [exact Hin|exact Hrecv].
Defined.

Lemma fresh_session_receives_witness :
  (forall r, in_room 7 r (rooms (mkServer two_users [])) = false)
  /\ exists m,
       sender_id m = 1 /\ receiver_id m = 2
       /\ received 7 [(7%nat, "user_2"%string)]
                   [mkEmission "user_2" (Some hello);
                    mkEmission "user_1" (Some hello)]
          = [Some m] ++ [].
Proof.
  assert (H : forall r, in_room 7 r (rooms (mkServer two_users [])) = false)
    by reflexivity.
  split; [exact H|].
  destruct (fresh_session_receives decimal_integer decimal_real 29 30 7%nat 2 1 2
              (Some "Hello"%string) (mkServer two_users [])
              (mkServer (mkStore [alice; bob] [] [] [] [hello] []
                                 2 0 0 0 1 0)
                        [(7%nat, "user_2"%string)])
              [mkEmission "user_2" (Some hello);
               mkEmission "user_1" (Some hello)]
              H eq_refl) as (m & _ & Hs & Hr & Hrecv).
  exists m. split; [exact Hs|]. split; [exact Hr|exact Hrecv].
Defined.

Lemma join_is_idempotent_witness :
  in_room 7 "user_2"
          (rooms (fst (fst (handle decimal_integer decimal_real 29 (On_join 7 (Num 2))
                                   (mkServer two_users [])))))
  = true
  /\ fst (fst (handle decimal_integer decimal_real 30 (On_join 7 (Num 2)) listening))
     = listening.
Proof.
  pose proof (join_is_idempotent decimal_integer decimal_real 29 30 7%nat (Num 2)
                (mkServer two_users [])) as H.
  cbv zeta in H. destruct H as (_ & Hin & _ & Hagain).
  split; [exact Hin|exact Hagain].
Defined.

Lemma history_lists_own_messages_witness :
  handle decimal_integer decimal_real 50 (GET_messages (Some "1"%string) "2")
         (mkServer chatting [])
  = (mkServer chatting [], Responds 200 (Json_messages [hello; hi_back]), [])
  /\ exists u,
       users_by_id decimal_integer (Str "1") chatting = Some u
       /\ forall m, In m [hello; hi_back] ->
                    sender_id m = user_id u \/ receiver_id m = user_id u.
Proof.
  assert (H : handle decimal_integer decimal_real 50 (GET_messages (Some "1"%string) "2")
                     (mkServer chatting [])
              = (mkServer chatting [],
                 Responds 200 (Json_messages [hello; hi_back]), []))
    by reflexivity.
  split; [exact H|].
  destruct (history_lists_own_messages decimal_integer decimal_real 50 _ _ _ _ _ _ H)
    as (header & u & Ha & Hu & Hown).
  injection Ha as <-. exists u. split; [exact Hu|].
  intros m Hm. exact (proj2 (Hown m Hm)).
Defined.


Lemma post_truck_rules_witness :
  is_role bob "driver" = true
  /\ (exists d',
         trucks_post (Some "Lahore"%string) (Some "Flatbed"%string)
                     (Some "2026-01-05"%string) None 50 bob two_users
         = (d', Responds 200 (Json_id 1))
         /\ trucks d'
            = [mkTruck 1 2 "Lahore" "Flatbed" "2026-01-05" None 50])
  /\ trucks_post (Some "Lahore"%string) None (Some "2026-01-05"%string) None
                 50 bob two_users
     = (two_users, Throws SQLITE_CONSTRAINT_NOTNULL).
Proof.
  split; [reflexivity|].
  destruct (post_truck_rules 50 (Some "Lahore"%string)
              (Some "Flatbed"%string) (Some "2026-01-05"%string) None bob
              two_users eq_refl) as [Hok _].
  destruct (post_truck_rules 50 (Some "Lahore"%string) None
              (Some "2026-01-05"%string) None bob two_users eq_refl)
    as [_ Hmissing].
  split.
  - pose proof (Hok _ _ _ eq_refl eq_refl eq_refl eq_refl) as H.
    cbv zeta in H. destruct H as (d' & H1 & H2).
    exists d'. split; [exact H1|exact H2].
  - apply Hmissing. right. left. reflexivity.
Defined.

Lemma approve_unknown_id_witness :
  users_by_id decimal_integer (Str "3") with_admin = Some root
  /\ users_by_id decimal_integer (Str "9") with_admin = None
  /\ handle decimal_integer decimal_real 50 (POST_admin_users_approve (Some "3"%string) "9")
            (mkServer with_admin [])
     = (mkServer with_admin [], Responds 200 Json_success, []).
Proof.
  split; [reflexivity|]. split; [reflexivity|].
  apply (approve_unknown_id decimal_integer decimal_real 50 (mkServer with_admin []) "3"
           root "9"); [discriminate|reflexivity|reflexivity|reflexivity].
Defined.

Lemma message_ids_unique_witness :
  reachable decimal_integer decimal_real (mkServer chatting [])
  /\ rowid_order (messages chatting).
Proof.
  split; [exact chatting_reachable|].
  apply (message_ids_unique decimal_integer decimal_real (mkServer chatting [])
           chatting_reachable).
Defined.
